(** * Verification of the notebooks of sedeh/github.io

    Two notebooks are embedded here:

    - the multiprocessing tutorial ("Outputting the result of multiprocessing
      to a pandas dataframe"): a parallel cell that fans ten [processData]
      calls out to a [multiprocessing.Pool] and gathers the rows through the
      [collect_results] callback, and a serial cell that appends the ten
      results and concatenates them with [pd.concat];
    - the H1B analysis ("Where the data science related jobs are? (Part 2)"):
      the group-by/sum query that computes [Job_Per_10000] per state.

    Python floats are IEEE 754 binary64 numbers; they are modelled by
    [spec_float] with the operations of [SpecFloat] at precision 53. *)

From Stdlib Require Import String ZArith QArith Lia Bool PeanoNat List Permutation
  Sorted.
From Stdlib Require Import Floats.SpecFloat.
Import ListNotations.
Open Scope Z_scope.

(* ================================================================== *)
(** * Python values: exceptions, floats, cells                         *)
(* ================================================================== *)

(** The exceptions the modelled code can raise. *)
Inductive exn : Type :=
| TypeError          (* a string cell multiplied by a float *)
| OverflowError      (* an integer too large to convert to a float *)
| ValueError         (* [Pool(processes=0)], [pd.concat([])] *)
| InvalidIndexError. (* [pd.concat] aligning a frame that repeats a label *)

(** The outcome of a Python call: a value, or a raised exception. *)
Inductive result (A : Type) : Type :=
| Ok (a : A)
| Raise (e : exn).
Arguments Ok {A} a.
Arguments Raise {A} e.

Definition bind {A B : Type} (r : result A) (k : A -> result B) : result B :=
  match r with
  | Ok a => k a
  | Raise e => Raise e
  end.

Notation "x <- r ;; k" := (bind r (fun x => k))
  (at level 61, r at next level, right associativity).

(** The first result that [f] gives along [l]. *)
Fixpoint first_some {A B : Type} (f : A -> option B) (l : list A) : option B :=
  match l with
  | [] => None
  | a :: l' =>
      match f a with
      | Some b => Some b
      | None => first_some f l'
      end
  end.

(** binary64: 53 bits of precision, infinities at exponent 1024. *)
Definition prec : Z := 53.
Definition emax : Z := 1024.
Definition float64 : Type := spec_float.

Definition fmul : float64 -> float64 -> float64 := SFmul prec emax.
Definition fadd : float64 -> float64 -> float64 := SFadd prec emax.
Definition fdiv : float64 -> float64 -> float64 := SFdiv prec emax.
Definition fsub : float64 -> float64 -> float64 := SFsub prec emax.
Definition fleb : float64 -> float64 -> bool := SFleb.

(** Conversion of an integer to the nearest binary64 (ties to even), as
    numpy does when an [int64] column meets a float operand. *)
Definition float_of_int (z : Z) : float64 := binary_normalize prec emax z 0 false.

(** The literal [1.0]. *)
Definition one : float64 := float_of_int 1.

Definition nan : float64 := S754_nan.

Definition is_valid (f : float64) : bool := valid_binary prec emax f.

Definition is_infinite (f : float64) : bool :=
  match f with S754_infinity _ => true | _ => false end.

(** The integer a float denotes, when it denotes one. *)
Definition int_value (f : float64) : option Z :=
  match f with
  | S754_zero _ => Some 0
  | S754_finite s m e =>
      if 0 <=? e then Some (cond_Zopp s (Zpos m * 2 ^ e))
      else if Zpos m mod 2 ^ (- e) =? 0
           then Some (cond_Zopp s (Zpos m / 2 ^ (- e)))
           else None
  | _ => None
  end.

(** One cell of a table.  [read_csv] yields [int64] and [float64] columns
    for numeric data and [object] columns of strings otherwise; an integer
    cell may also be a Python integer of any size. *)
Inductive cell : Type :=
| VInt (z : Z)
| VFloat (f : float64)
| VStr (s : string).

Definition Row : Type := list cell.

(** A column label: a header name, or a position of the default
    [RangeIndex] that [pd.DataFrame(list_of_lists)] creates. *)
Inductive label : Type :=
| Name (s : string)
| Idx (i : nat).

Definition label_eq_dec (a b : label) : {a = b} + {a <> b}.
Proof. decide equality; [apply string_dec | apply Nat.eq_dec]. Defined.

Definition is_name (l : label) : bool :=
  match l with Name _ => true | Idx _ => false end.

(** A data frame: its column labels and its rows (the row index is always
    the default one in the modelled code, so it is left out). *)
Record DataFrame : Type := mkDF { columns : list label; values : list Row }.

(** [df.shape] *)
Definition shape (df : DataFrame) : nat * nat :=
  (length (values df), length (columns df)).

(** Every row has one cell per column. *)
Definition rectangular (df : DataFrame) : bool :=
  forallb (fun r => Nat.eqb (length r) (length (columns df))) (values df).

(** A float cell. *)
Definition is_float (c : cell) : bool :=
  match c with VFloat _ => true | _ => false end.

Definition is_str (c : cell) : bool :=
  match c with VStr _ => true | _ => false end.

(** A cell that can be multiplied by a float: a float, or an integer
    within the range of binary64 (rounded if need be). *)
Definition is_numeric (c : cell) : bool :=
  match c with
  | VInt z => negb (is_infinite (float_of_int z))
  | VFloat _ => true
  | VStr _ => false
  end.

(** A numeric table: every cell can be multiplied by a float. *)
Definition numeric (df : DataFrame) : bool :=
  forallb (forallb is_numeric) (values df).

(** A cell that binary64 holds exactly: a valid float, or an integer below
    2^53 in magnitude. *)
Definition is_exact (c : cell) : bool :=
  match c with
  | VInt z => Z.abs z <? 2 ^ 53
  | VFloat f => is_valid f
  | VStr _ => false
  end.

Definition exact (df : DataFrame) : bool :=
  forallb (forallb is_exact) (values df).

(** [same_value cin cout]: the output cell holds the value of the input
    cell: the identical float, or the float that denotes the integer. *)
Definition same_value (cin cout : cell) : Prop :=
  match cin, cout with
  | VFloat f, VFloat g => g = f
  | VInt z, VFloat g => int_value g = Some z
  | _, _ => False
  end.

(** The same list of labels. *)
Definition same_labels (a b : list label) : bool :=
  if list_eq_dec label_eq_dec a b then true else false.

(** The jobs share the schema [cols]: every input frame has exactly these
    labels and one cell per label in every row. *)
Definition common_schema (cols : list label) (jobs : list DataFrame) : bool :=
  forallb (fun df => same_labels (columns df) cols && rectangular df) jobs.

(* ================================================================== *)
(** * The transformation: [df * 1.0], one hundred thousand times        *)
(* ================================================================== *)

(** [c * k] for one cell: an integer is converted to a float first and
    raises [OverflowError] when it is too large for one; a string raises
    [TypeError]. *)
Definition cell_mul (k : float64) (c : cell) : result cell :=
  match c with
  | VInt z =>
      if is_infinite (float_of_int z) then Raise OverflowError
      else Ok (VFloat (fmul (float_of_int z) k))
  | VFloat f => Ok (VFloat (fmul f k))
  | VStr _ => Raise TypeError
  end.

(** The product [c * k] of a cell that raises nothing. *)
Definition times (k : float64) (c : cell) : cell :=
  match c with
  | VInt z => VFloat (fmul (float_of_int z) k)
  | VFloat f => VFloat (fmul f k)
  | VStr s => VStr s
  end.

(** The cell [c * 1.0] of a numeric cell [c]. *)
Definition times_one (c : cell) : cell :=
  match c with
  | VInt z => VFloat (fmul (float_of_int z) one)
  | VFloat f => VFloat (fmul f one)
  | VStr s => VStr s
  end.

(** The exception [c * k] raises, if any. *)
Definition cell_error (k : float64) (c : cell) : option exn :=
  match cell_mul k c with
  | Ok _ => None
  | Raise e => Some e
  end.

(** The product is evaluated column by column, each column from the top:
    the exception of [df * k] is the one of the first cell, in this
    order, that raises. *)
Definition column_error (k : float64) (rows : list Row) (j : nat) : option exn :=
  first_some (fun r => match nth_error r j with
                       | Some c => cell_error k c
                       | None => None
                       end) rows.

Definition first_error (k : float64) (rows : list Row) : option exn :=
  first_some (column_error k rows) (seq 0 (list_max (map (@length cell) rows))).

(** [df * k]: a new frame with the same labels. *)
Definition df_mul (df : DataFrame) (k : float64) : result DataFrame :=
  match first_error k (values df) with
  | Some e => Raise e
  | None => Ok (mkDF (columns df) (map (map (times k)) (values df)))
  end.

(** [[
    for i in range(100000):
        df = df * 1.0
    ]] *)
Definition loop_count : positive := 100000.

Definition loop (df : DataFrame) : result DataFrame :=
  Pos.iter (fun r => d <- r ;; df_mul d one) (Ok df) loop_count.
Arguments loop : simpl never.

(** [pd.DataFrame(results)] on a list of lists: default integer labels, as
    many as the longest row has cells, shorter rows padded with NaN. *)
Definition pad (n : nat) (r : Row) : Row :=
  r ++ repeat (VFloat nan) (n - length r).

Definition DataFrame_of_lists (rows : list Row) : DataFrame :=
  let n := list_max (map (@length cell) rows) in
  mkDF (map Idx (seq 0 n)) (map (pad n) rows).

(** The labels [pd.DataFrame] gives to rows that are all [n] cells wide:
    the positions [0 .. n-1], and no label at all when there is no row. *)
Definition default_labels (rows : list Row) (n : nat) : list label :=
  match rows with
  | [] => []
  | _ :: _ => map Idx (seq 0 n)
  end.

(* ================================================================== *)
(** * The parallel cell                                                *)
(* ================================================================== *)

Module Parallel.

(** [[
    def processData(df):
        for i in range(100000):
            df = df * 1.0
        return df.values.tolist()
    ]]
    After the loop every cell is a float, so [df.values.tolist()] is the
    list of rows as it stands. *)
Definition processData (df : DataFrame) : result (list Row) :=
  d <- loop df ;; Ok (values d).

(** [[
    def collect_results(result):
        results.extend(result)
    ]]
    on the global list [results]. *)
Definition collect_results (result : list Row) (results : list Row) : list Row :=
  results ++ result.

(** What [ApplyResult._set] does when a worker reports: the callback runs
    on success only; an exception is stored in the async result, which
    the cell never inspects (no [get], no [error_callback]). *)
Definition set_result (r : result (list Row)) (results : list Row) : list Row :=
  match r with
  | Ok value => collect_results value results
  | Raise _ => results
  end.

(** A task of the pool: the number of the job in submission order and the
    argument of [processData]. *)
Record Task : Type := mkTask { job : nat; args : DataFrame }.

(** The state of the cell while the pool works.
    - [todo]: iterations of the [apply_async] loop not yet run;
    - [taskqueue]: tasks handed to the pool and not yet taken by a worker;
    - [running]: tasks held by workers;
    - [results]: the global accumulator;
    - [completed]: the tasks whose outcome has been handled, in the order
      of handling (a history variable). *)
Record State : Type := mkState {
  todo : list Task;
  taskqueue : list Task;
  running : list Task;
  results : list Row;
  completed : list Task
}.

(** One scheduling step of a pool of [processes] workers. *)
Inductive step (processes : nat) : State -> State -> Prop :=
| step_apply_async t td q run res done :
    step processes (mkState (t :: td) q run res done)
                   (mkState td (q ++ [t]) run res done)
| step_take t td q run res done :
    (length run < processes)%nat ->
    step processes (mkState td (t :: q) run res done)
                   (mkState td q (run ++ [t]) res done)
| step_report t td q run1 run2 res done :
    step processes (mkState td q (run1 ++ t :: run2) res done)
                   (mkState td q (run1 ++ run2)
                            (set_result (processData (args t)) res)
                            (done ++ [t])).

Inductive steps (processes : nat) : State -> State -> Prop :=
| steps_refl s : steps processes s s
| steps_step s1 s2 s3 :
    steps processes s1 s2 -> step processes s2 s3 -> steps processes s1 s3.

(** The tasks of a job list, numbered from [i]. *)
Fixpoint tasks_from (i : nat) (jobs : list DataFrame) : list Task :=
  match jobs with
  | [] => []
  | df :: rest => mkTask i df :: tasks_from (S i) rest
  end.

(** [results = []], a fresh pool, nothing submitted yet. *)
Definition init (jobs : list DataFrame) : State :=
  mkState (tasks_from 0 jobs) [] [] [] [].

(** [pool.close(); pool.join()] returns when every task has been handled. *)
Definition joined (s : State) : Prop :=
  todo s = [] /\ taskqueue s = [] /\ running s = [].

(** The [__main__] block with the job list and the pool size as
    parameters:
    [[
    pool = multiprocessing.Pool(processes=...)
    for ...: pool.apply_async(processData, args=(df, ), callback=collect_results)
    pool.close()
    pool.join()
    df = pd.DataFrame(results)
    ]]
    [Pool] raises [ValueError] when [processes < 1]. *)
Inductive submit (jobs : list DataFrame) (processes : nat)
  : result DataFrame -> Prop :=
| submit_no_pool :
    processes = 0%nat -> submit jobs processes (Raise ValueError)
| submit_joined s :
    (1 <= processes)%nat ->
    steps processes (init jobs) s ->
    joined s ->
    submit jobs processes (Ok (DataFrame_of_lists (results s))).

(** The cell as written: ten jobs on the same frame. *)
Definition main (df : DataFrame) (cpu_count : nat) : result DataFrame -> Prop :=
  submit (repeat df 10) cpu_count.

(** The rows an outcome carries: the result, or nothing for an exception. *)
Definition rows_of (r : result (list Row)) : list Row :=
  match r with
  | Ok rows => rows
  | Raise _ => []
  end.

(** The rows a job contributes: its result, or nothing when it raises. *)
Definition job_rows (df : DataFrame) : list Row := rows_of (processData df).

(** The invariant of the cell: the accumulator is the concatenation, in
    handling order, of the rows of the handled tasks, and no task is lost
    or handled twice. *)
Definition invariant (jobs : list DataFrame) (s : State) : Prop :=
  results s = flat_map (fun t => job_rows (args t)) (completed s) /\
  Permutation (completed s ++ running s ++ taskqueue s ++ todo s)
              (tasks_from 0 jobs).

(** ** An executable scheduler, to build runs *)

Inductive event : Type :=
| ApplyAsync          (* the main thread submits the next task *)
| Take                (* an idle worker takes the head of the queue *)
| Report (i : nat).   (* the [i]-th busy worker reports its outcome *)

Definition fire (processes : nat) (ev : event) (s : State) : option State :=
  match ev with
  | ApplyAsync =>
      match todo s with
      | t :: td => Some (mkState td (taskqueue s ++ [t]) (running s)
                                 (results s) (completed s))
      | [] => None
      end
  | Take =>
      match taskqueue s with
      | t :: q =>
          if (length (running s) <? processes)%nat
          then Some (mkState (todo s) q (running s ++ [t])
                             (results s) (completed s))
          else None
      | [] => None
      end
  | Report i =>
      match skipn i (running s) with
      | t :: run2 =>
          Some (mkState (todo s) (taskqueue s) (firstn i (running s) ++ run2)
                        (set_result (processData (args t)) (results s))
                        (completed s ++ [t]))
      | [] => None
      end
  end.

Fixpoint run (processes : nat) (evs : list event) (s : State) : option State :=
  match evs with
  | [] => Some s
  | ev :: evs' =>
      match fire processes ev s with
      | Some s' => run processes evs' s'
      | None => None
      end
  end.

Definition joinedb (s : State) : bool :=
  match todo s, taskqueue s, running s with
  | [], [], [] => true
  | _, _, _ => false
  end.

End Parallel.

(* ================================================================== *)
(** * The serial cell                                                  *)
(* ================================================================== *)

Module Serial.

(** [[
    def processData(df):
        for i in range(100000):
            df = df * 1.0
        return df
    ]] *)
Definition processData (df : DataFrame) : result DataFrame := loop df.

(** The labels of [l] that are not in [seen], each once, in order of
    first appearance. *)
Fixpoint union_acc (seen l : list label) : list label :=
  match l with
  | [] => []
  | c :: l' =>
      if in_dec label_eq_dec c seen then union_acc seen l'
      else c :: union_acc (c :: seen) l'
  end.

(** The labels of all frames, each once, in order of first appearance
    ([sort=False]). *)
Definition union_columns (objs : list DataFrame) : list label :=
  union_acc [] (flat_map columns objs).

(** No label stands twice among the labels of a frame. *)
Fixpoint unique (l : list label) : bool :=
  match l with
  | [] => true
  | c :: l' => if in_dec label_eq_dec c l' then false else unique l'
  end.

(** The cell of [r] under label [c], NaN when the frame has no such
    column. *)
Fixpoint lookup (c : label) (cols : list label) (r : Row) : cell :=
  match cols, r with
  | c' :: cols', v :: r' =>
      if label_eq_dec c c' then v else lookup c cols' r'
  | _, _ => VFloat nan
  end.

(** The rows of [o] laid out under the labels [cols]; nothing moves when
    [o] has exactly these labels. *)
Definition reindex (cols : list label) (o : DataFrame) : list Row :=
  if same_labels (columns o) cols then values o
  else map (fun r => map (fun c => lookup c (columns o) r) cols) (values o).

(** The type of a column follows from its cells: a column that holds a
    string, or an integer outside the 64-bit range, is an object column,
    whose cells are what they are; any other column that holds a float is
    a float64 column, whose integer cells stand for their floats; a column
    of 64-bit integers only is an int64 column. *)
Definition int64_cell (c : cell) : bool :=
  match c with
  | VInt z => (- 2 ^ 63 <=? z) && (z <? 2 ^ 63)
  | _ => true
  end.

Definition holds_object (cells : list cell) : bool :=
  existsb is_str cells || negb (forallb int64_cell cells).

(** Column [j] of the rows, from the first row down. *)
Definition column_of (rows : list Row) (j : nat) : list cell :=
  flat_map (fun r => match nth_error r j with Some c => [c] | None => [] end) rows.

(** Column [j] becomes a float64 column: it is no object column, and it
    holds a float or has to hold a NaN ([na j]). *)
Definition to_float64 (rows : list Row) (na : nat -> bool) (j : nat) : bool :=
  negb (holds_object (column_of rows j))
  && (existsb is_float (column_of rows j) || na j).

(** An integer converted to float64. *)
Definition upcast (c : cell) : cell :=
  match c with
  | VInt z => VFloat (float_of_int z)
  | _ => c
  end.

Fixpoint cast_row (float64_column : nat -> bool) (j : nat) (r : Row) : Row :=
  match r with
  | [] => []
  | c :: r' =>
      (if float64_column j then upcast c else c)
        :: cast_row float64_column (S j) r'
  end.

(** The rows with the integers of every float64 column converted. *)
Definition astype (na : nat -> bool) (rows : list Row) : list Row :=
  map (cast_row (to_float64 rows na) 0) rows.

Definition no_na (j : nat) : bool := false.

(** Some frame does not have the label at position [j] of [cols]: its
    part of that column is NaN. *)
Definition lacking (cols : list label) (objs : list DataFrame) (j : nat) : bool :=
  match nth_error cols j with
  | Some c =>
      existsb (fun o => if in_dec label_eq_dec c (columns o) then false else true) objs
  | None => false
  end.

(** All frames carry the labels of the first one, in its order. *)
Definition same_columns (objs : list DataFrame) : bool :=
  match objs with
  | [] => true
  | o :: _ => forallb (fun o' => same_labels (columns o') (columns o)) objs
  end.

(** [pd.concat(objs, axis=0, ignore_index=True)]: [ValueError] on an empty
    list.  When all frames carry the same labels, the rows of the frames
    one after the other, in list order, under these labels.  Otherwise
    every frame is laid out under the union of the labels, which raises
    [InvalidIndexError] for a frame that repeats a label, and a cell the
    frame does not have is NaN.  A column of the result takes the common
    type of its parts: an integer column that meets a float column, or
    that some frame does not have, becomes a float64 column. *)
Definition concat (objs : list DataFrame) : result DataFrame :=
  match objs with
  | [] => Raise ValueError
  | o :: _ =>
      if same_columns objs
      then Ok (mkDF (columns o)
                 (astype no_na (flat_map (fun o' => astype no_na (values o')) objs)))
      else if forallb (fun o' => unique (columns o')) objs
      then
        let cols := union_columns objs in
        Ok (mkDF cols
              (astype (lacking cols objs)
                 (flat_map
                    (fun o' => reindex cols (mkDF (columns o') (astype no_na (values o'))))
                    objs)))
      else Raise InvalidIndexError
  end.

(** [[
    for ...:
        results.append(processData(df))
    ]]
    The exception of a failing job leaves the loop; [results] keeps what
    was appended before. *)
Fixpoint for_append (jobs : list DataFrame) (results : list DataFrame)
  : list DataFrame * option exn :=
  match jobs with
  | [] => (results, None)
  | df :: rest =>
      match processData df with
      | Ok r => for_append rest (results ++ [r])
      | Raise e => (results, Some e)
      end
  end.

(** The globals of the notebook that the cell writes. *)
Record Globals : Type := mkGlobals {
  results : list DataFrame;
  final : option DataFrame
}.

(** One run of the cell from the globals [g]: [results = []], the loop,
    then [final = pd.concat(results, axis=0, ignore_index=True)].  The
    outcome is the globals afterwards and the exception that stopped the
    cell, if any. *)
Definition run_cell (jobs : list DataFrame) (g : Globals) : Globals * option exn :=
  match for_append jobs [] with
  | (rs, Some e) => (mkGlobals rs (final g), Some e)
  | (rs, None) =>
      match concat rs with
      | Ok t => (mkGlobals rs (Some t), None)
      | Raise e => (mkGlobals rs (final g), Some e)
      end
  end.

(** The table the cell computes, as a function of the jobs. *)
Definition submit (jobs : list DataFrame) : result DataFrame :=
  match run_cell jobs (mkGlobals [] None) with
  | (g, None) =>
      match final g with
      | Some t => Ok t
      | None => Raise ValueError
      end
  | (_, Some e) => Raise e
  end.

(** The cell as written: ten jobs on the same frame. *)
Definition main (df : DataFrame) : result DataFrame := submit (repeat df 10).

End Serial.

(* ================================================================== *)
(** * Measures of a run of the pool                                    *)
(* ================================================================== *)

(** The steps a state of the pool still owes: three for a task not yet
    submitted, two for a queued one, one for a running one. *)
Definition pending_work (s : Parallel.State) : nat :=
  3 * length (Parallel.todo s) + 2 * length (Parallel.taskqueue s)
  + length (Parallel.running s).

(** Runs of the pool, with their number of steps. *)
Inductive steps_in (processes : nat) : nat -> Parallel.State -> Parallel.State -> Prop :=
| steps_in_O s : steps_in processes 0 s s
| steps_in_S n s1 s2 s3 :
    steps_in processes n s1 s2 -> Parallel.step processes s2 s3 ->
    steps_in processes (S n) s1 s3.

(** The dispatch discipline of the pool: the tasks already taken by a
    worker are a prefix of the submission order, nothing outruns the
    queue, and at most [k] tasks run at a time. *)
Definition dispatch_invariant (jobs : list DataFrame) (k : nat) (s : Parallel.State) : Prop :=
  (length (Parallel.running s) <= k)%nat /\
  exists started,
    Parallel.tasks_from 0 jobs = started ++ Parallel.taskqueue s ++ Parallel.todo s /\
    Permutation started (Parallel.completed s ++ Parallel.running s).

(* ================================================================== *)
(** * Sample inputs                                                    *)
(* ================================================================== *)

(** The header of the CSV file the cells read. *)
Definition fisher_columns : list label :=
  [Name "Type"; Name "PW"; Name "PL"; Name "SW"; Name "SL"]%string.

(** A frame of the size of the CSV file: 150 rows, 5 integer columns. *)
Definition fisher_like : DataFrame :=
  mkDF fisher_columns (repeat [VInt 0; VInt 2; VInt 14; VInt 33; VInt 50] 150).

(** One-column frames: an integer cell, a float cell, a string cell, and an
    integer that binary64 cannot hold. *)
Definition frame_int : DataFrame := mkDF [Name "x"%string] [[VInt 3]].

Definition frame_float : DataFrame :=
  mkDF [Name "x"%string] [[VFloat (S754_finite false 6755399441055744 (-52))]].

Definition frame_str : DataFrame := mkDF [Name "x"%string] [[VStr "n/a"]].

(** A frame under the default labels, as [read_csv(..., header=None)]
    gives it: one column labelled [0]. *)
Definition frame_unlabelled : DataFrame :=
  mkDF [Idx 0] [[VFloat (S754_finite false 6755399441055744 (-52))]].

(** A frame of Python integers and strings: 2^1024 is too large for a
    float, and it stands above the string of its column. *)
Definition frame_huge : DataFrame :=
  mkDF [Name "a"; Name "b"] [[VInt (2 ^ 1024); VStr "x"]; [VStr "y"; VInt 1]].

Definition frame_big : DataFrame := mkDF [Name "x"%string] [[VInt (2 ^ 53 + 1)]].

Definition two_jobs : list DataFrame := [frame_int; frame_float].

(** Two frames that share the column [a] only, and a frame that carries
    the label [a] twice. *)
Definition frame_ab : DataFrame := mkDF [Name "a"; Name "b"] [[VInt 1; VInt 2]].

Definition frame_ac : DataFrame :=
  mkDF [Name "a"; Name "c"] [[VFloat (S754_finite false 6755399441055744 (-52)); VStr "x"]].

Definition frame_aa : DataFrame := mkDF [Name "a"; Name "a"] [[VInt 1; VInt 2]].

(** Ten jobs, the fifth of which raises. *)
Definition failing_jobs : list DataFrame :=
  repeat frame_int 4 ++ [frame_str] ++ repeat frame_int 5.


(** A run of two workers on [two_jobs] in which the second job completes
    first, the state it ends in, and the tables of the two cells. *)
Definition overtaking : list Parallel.event :=
  [Parallel.ApplyAsync; Parallel.ApplyAsync; Parallel.Take; Parallel.Take;
   Parallel.Report 1; Parallel.Report 0].

Definition overtaken : Parallel.State :=
  Parallel.mkState [] [] []
    (Parallel.set_result (Parallel.processData frame_int)
       (Parallel.set_result (Parallel.processData frame_float) []))
    [Parallel.mkTask 1 frame_float; Parallel.mkTask 0 frame_int].

Definition overtaken_table : DataFrame :=
  DataFrame_of_lists (Parallel.results overtaken).

Definition serial_table : DataFrame :=
  mkDF [Name "x"%string] (flat_map Parallel.job_rows two_jobs).

(* ================================================================== *)
(** * The state aggregation query of the H1B notebook                  *)
(* ================================================================== *)

Module H1B.

(** The arithmetic of the number columns.  The notebook computes with
    binary64 ([Float64]); [Exact] runs the same query on rationals, to
    tell what the query computes from what rounding adds. *)
Record Arith : Type := mkArith {
  num : Type;
  of_int : Z -> num;
  add : num -> num -> num;
  sub : num -> num -> num;
  mul : num -> num -> num;
  div : num -> num -> num;
  leb : num -> num -> bool;
  isnan : num -> bool;
  NaN : num
}.

Definition is_nan (f : float64) : bool :=
  match f with S754_nan => true | _ => false end.

Definition Float64 : Arith :=
  mkArith float64 float_of_int fadd fsub fmul fdiv fleb is_nan nan.


Section Query.

Variable A : Arith.

(** A row of [dsJobs[["Work_State_Code", "Census_2015"]]]; a missing state
    code is [None]. *)
Record Filing : Type := mkFiling {
  Work_State_Code : option string;
  Census_2015 : num A
}.

(** A row once [Job_Per_10000] has been added. *)
Record Rated : Type := mkRated {
  state_code : option string;
  census : num A;
  job_per_10000 : num A
}.

(** [data["Job_Per_10000"] = 10000 * (1 / data["Census_2015"])] *)
Definition add_Job_Per_10000 (data : list Filing) : list Rated :=
  map (fun r => mkRated (Work_State_Code r) (Census_2015 r)
                        (mul A (of_int A 10000) (div A (of_int A 1) (Census_2015 r))))
      data.

(** The accumulators of one column of one group in the group-by kernel
    of [sum]: the number of cells seen, the running sum, and the running
    compensation of the rounding errors (Kahan summation). *)
Record Acc : Type := mkAcc {
  nobs : nat;
  sumx : num A;
  compensation : num A
}.

(** One cell of the group.  A NaN cell is skipped.
    [[
    y = val - compensation
    t = sumx + y
    compensation = t - sumx - y
    if compensation != compensation:
        compensation = 0
    sumx = t
    ]]
    The compensation is NaN once the sum is infinite; it is then reset. *)
Definition accumulate (acc : Acc) (val : num A) : Acc :=
  if isnan A val then acc
  else
    let y := sub A val (compensation acc) in
    let t := add A (sumx acc) y in
    let c := sub A (sub A t (sumx acc)) y in
    mkAcc (S (nobs acc)) t (if isnan A c then of_int A 0 else c).

(** [sum()] is called with its default [min_count=0]. *)
Definition min_count : nat := 0.

(** The sum of one column within one group: the cells accumulated from
    zero in row order, NaN when fewer than [min_count] cells were
    accumulated.  No group has fewer, so the result is always the running
    sum; it is zero for a group all of whose cells are NaN. *)
Definition group_sum (vals : list (num A)) : num A :=
  let acc := fold_left accumulate vals (mkAcc 0 (of_int A 0) (of_int A 0)) in
  if Nat.ltb (nobs acc) min_count then NaN A else sumx acc.

Definition has_code (s : string) (r : Rated) : bool :=
  match state_code r with
  | Some c => String.eqb c s
  | None => false
  end.

(** Insertion of a key into the sorted list of distinct keys. *)
Fixpoint insert_key (s : string) (keys : list string) : list string :=
  match keys with
  | [] => [s]
  | k :: keys' =>
      match String.compare s k with
      | Lt => s :: keys
      | Eq => keys
      | Gt => k :: insert_key s keys'
      end
  end.

(** The group keys: the state codes present, sorted; rows without a code
    belong to no group. *)
Fixpoint group_keys (data : list Rated) : list string :=
  match data with
  | [] => []
  | r :: data' =>
      match state_code r with
      | Some c => insert_key c (group_keys data')
      | None => group_keys data'
      end
  end.

(** A row of [state_data]. *)
Record StateRow : Type := mkStateRow {
  sr_code : string;
  sr_Census_2015 : num A;
  sr_Job_Per_10000 : num A
}.

(** [data.groupby(['Work_State_Code']).sum()] followed by [reset_index()]. *)
Definition groupby_sum (data : list Rated) : list StateRow :=
  map (fun k =>
         let g := filter (has_code k) data in
         mkStateRow k (group_sum (map census g)) (group_sum (map job_per_10000 g)))
      (group_keys data).

(** [state_data] as [state_data = data.reset_index()] leaves it, before
    it is sorted in place: one row per state code, in the order of the
    codes. *)
Definition reset_index (dsJobs : list Filing) : list StateRow :=
  groupby_sum (add_Job_Per_10000 dsJobs).

(** A row whose [Job_Per_10000] is NaN. *)
Definition missing (r : StateRow) : bool := isnan A (sr_Job_Per_10000 r).

Definition present (r : StateRow) : bool := negb (missing r).

(** Row [a] may stand right before row [b] in descending order. *)
Definition not_below (a b : StateRow) : Prop :=
  leb A (sr_Job_Per_10000 b) (sr_Job_Per_10000 a) = true.

(** [rows.sort_values(by="Job_Per_10000", ascending=False)] gives [out]:
    the rows that have a [Job_Per_10000] in descending order, then the
    rows whose [Job_Per_10000] is NaN, in their order in [rows]
    ([na_position='last']).  The default sort is not stable: rows with
    equal [Job_Per_10000] come in an order the library does not fix. *)
Definition sort_values (rows out : list StateRow) : Prop :=
  exists head,
    out = head ++ filter missing rows /\
    Permutation head (filter present rows) /\
    Sorted not_below head.

(** The order of the column is total on the rows that [P] selects. *)
Definition total_on (P : StateRow -> bool) : Prop :=
  forall a b, P a = true -> P b = true ->
              leb A (sr_Job_Per_10000 a) (sr_Job_Per_10000 b) = false ->
              leb A (sr_Job_Per_10000 b) (sr_Job_Per_10000 a) = true.

(** One table that [sort_values] may give: rows with equal
    [Job_Per_10000] keep their order. *)
Fixpoint insert_row (r : StateRow) (l : list StateRow) : list StateRow :=
  match l with
  | [] => [r]
  | x :: l' =>
      if leb A (sr_Job_Per_10000 x) (sr_Job_Per_10000 r) then r :: l
      else x :: insert_row r l'
  end.

Definition sort_values_stable (rows : list StateRow) : list StateRow :=
  fold_right insert_row [] (filter present rows) ++ filter missing rows.

(** The query cell: [out] is a table that
    [state_data.sort_values(by="Job_Per_10000", ascending=False, inplace=True)]
    may leave in [state_data]. *)
Definition state_data (dsJobs : list Filing) (out : list StateRow) : Prop :=
  sort_values (reset_index dsJobs) out.

(** The row of a table for the state [s]. *)
Definition state_row (s : string) (rows : list StateRow) : option StateRow :=
  find (fun r => String.eqb (sr_code r) s) rows.

(** The number of filings of the state [s]. *)
Definition filings (s : string) (dsJobs : list Filing) : nat :=
  length (filter (has_code s) (add_Job_Per_10000 dsJobs)).

End Query.

Arguments mkFiling {A}.
Arguments Work_State_Code {A}.
Arguments Census_2015 {A}.
Arguments sr_code {A}.
Arguments sr_Census_2015 {A}.
Arguments sr_Job_Per_10000 {A}.
Arguments reset_index {A}.
Arguments sort_values {A}.
Arguments sort_values_stable {A}.
Arguments state_data {A}.
Arguments state_row {A}.
Arguments filings {A}.
Arguments missing {A}.
Arguments present {A}.
Arguments not_below {A}.

(** Three filings in Florida, with the census of the data set. *)
Definition florida : float64 := float_of_int 20271272.

Definition three_filings : list (Filing Float64) :=
  [@mkFiling Float64 (Some "FL"%string) florida;
   @mkFiling Float64 (Some "FL"%string) florida;
   @mkFiling Float64 (Some "FL"%string) florida].


(** The order of the state codes: strictly before, in the lexicographic
    order of strings that the group-by sorts its keys by. *)
Definition code_lt (a b : string) : Prop := String.compare a b = Lt.

(** The filings of the state [s], in their order in the data set. *)
Definition filings_of {A : Arith} (s : string) (dsJobs : list (Filing A))
  : list (Filing A) :=
  filter (fun r => match Work_State_Code r with
                   | Some c => String.eqb c s
                   | None => false
                   end) dsJobs.

(** The per-row value [10000 * (1 / census)]. *)
Definition rate {A : Arith} (census : num A) : num A :=
  mul A (of_int A 10000) (div A (of_int A 1) census).

(** The two aggregated columns of the state [s] in a table. *)
Definition Census_2015_of {A : Arith} (s : string) (rows : list (StateRow A))
  : option (num A) :=
  option_map sr_Census_2015 (state_row s rows).

Definition Job_Per_10000_of {A : Arith} (s : string) (rows : list (StateRow A))
  : option (num A) :=
  option_map sr_Job_Per_10000 (state_row s rows).

(** One filing with a census of 0.0 and one filing without a state code. *)
Definition unpopulated : list (Filing Float64) :=
  [@mkFiling Float64 (Some "XX"%string) (S754_zero false);
   @mkFiling Float64 None (float_of_int 5)].

End H1B.

(* ================================================================== *)
(** * Facts on binary64                                                *)
(* ================================================================== *)

Section Binary64.

Lemma one_eq : one = S754_finite false 4503599627370496 (-52).
Proof. vm_compute. reflexivity. Qed.

Lemma iter_pos_iter {A : Type} (f : A -> A) (n : positive) (x : A) :
  iter_pos f n x = Pos.iter f x n.
Proof.
  revert x. induction n as [n IH | n IH | ]; intros x; simpl.
  - rewrite !IH, !Pos.iter_swap. reflexivity.
  - rewrite !IH. reflexivity.
  - reflexivity.
Qed.

(** Appending [n] zero bits adds [n] to the bit length... *)
Lemma digits2_iter_xO (m n : positive) :
  Zpos (digits2_pos (Pos.iter xO m n)) = Zpos (digits2_pos m) + Zpos n.
Proof.
  induction n as [ | n IH] using Pos.peano_ind.
  - simpl. lia.
  - rewrite Pos.iter_succ. simpl digits2_pos. lia.
Qed.

(** ... multiplies by [2 ^ n] ... *)
Lemma Zpos_iter_xO (m n : positive) :
  Zpos (Pos.iter xO m n) = Zpos m * 2 ^ Zpos n.
Proof.
  induction n as [ | n IH] using Pos.peano_ind.
  - simpl. lia.
  - rewrite Pos.iter_succ, Pos2Z.inj_xO, IH, Pos2Z.inj_succ, Z.pow_succ_r by lia.
    ring.
Qed.

(** ... and is undone by [n] exact right shifts. *)
Lemma shr_iter_xO (m n : positive) :
  iter_pos shr_1 n (Build_shr_record (Zpos (Pos.iter xO m n)) false false)
  = Build_shr_record (Zpos m) false false.
Proof.
  rewrite iter_pos_iter.
  induction n as [ | n IH] using Pos.peano_ind.
  - reflexivity.
  - rewrite Pos.iter_succ_r, Pos.iter_succ. exact IH.
Qed.

Lemma mul_pow52 (m : positive) :
  (m * 4503599627370496)%positive = Pos.iter xO m 52.
Proof. rewrite Pos.mul_comm. reflexivity. Qed.

(** Rounding a mantissa that is already canonical changes nothing. *)
Lemma binary_round_aux_canonical (s : bool) (m : positive) (e : Z) :
  bounded prec emax m e = true ->
  binary_round_aux prec emax s (Zpos m) e loc_Exact = S754_finite s m e.
Proof.
  unfold bounded, canonical_mantissa. intros Hb.
  apply andb_true_iff in Hb as [Hc Hle]. apply Z.eqb_eq in Hc.
  unfold binary_round_aux, shr_fexp. cbv [Zdigits2].
  rewrite Hc, Z.sub_diag.
  cbv [shr shr_record_of_loc shr_m loc_of_shr_record round_nearest_even Zdigits2].
  rewrite Hc, Z.sub_diag. cbv [shr_m]. rewrite Hle. reflexivity.
Qed.

(** [x * 1.0] is [x], bit for bit, for every binary64 [x]. *)
Lemma fmul_one (x : float64) : is_valid x = true -> fmul x one = x.
Proof.
  rewrite one_eq. destruct x as [s | s | | s m e]; simpl; intros Hv.
  - now rewrite xorb_false_r.
  - now rewrite xorb_false_r.
  - reflexivity.
  - unfold bounded, canonical_mantissa in Hv.
    apply andb_true_iff in Hv as [Hc Hle]. apply Z.eqb_eq in Hc.
    rewrite xorb_false_r, mul_pow52.
    unfold binary_round_aux, shr_fexp. unfold Zdigits2 at 1.
    rewrite digits2_iter_xO.
    replace (Zpos (digits2_pos m) + 52 + (e + -52))
      with (Zpos (digits2_pos m) + e) by lia.
    rewrite Hc. replace (e - (e + -52)) with 52 by lia.
    unfold shr at 1. cbv [shr_record_of_loc]. rewrite shr_iter_xO.
    cbv [shr_m loc_of_shr_record round_nearest_even Zdigits2].
    replace (e + -52 + 52) with e by lia. rewrite Hc, Z.sub_diag.
    cbv [shr shr_m]. rewrite Hle. reflexivity.
Qed.

Lemma digits2_pos_bound (m : positive) :
  2 ^ (Zpos (digits2_pos m) - 1) <= Zpos m < 2 ^ Zpos (digits2_pos m).
Proof.
  induction m as [m IH | m IH | ]; simpl digits2_pos.
  - rewrite Pos2Z.inj_succ, (Pos2Z.inj_xI m).
    replace (Z.succ (Zpos (digits2_pos m)) - 1)
      with (Z.succ (Zpos (digits2_pos m) - 1)) by lia.
    rewrite !Z.pow_succ_r by lia. lia.
  - rewrite Pos2Z.inj_succ, (Pos2Z.inj_xO m).
    replace (Z.succ (Zpos (digits2_pos m)) - 1)
      with (Z.succ (Zpos (digits2_pos m) - 1)) by lia.
    rewrite !Z.pow_succ_r by lia. lia.
  - split; [discriminate | reflexivity].
Qed.

(** An integer below 2^53 has at most 53 bits. *)
Lemma digits2_pos_small (m : positive) :
  Zpos m < 2 ^ 53 -> Zpos (digits2_pos m) <= 53.
Proof.
  intros Hm. destruct (Z_le_gt_dec (Zpos (digits2_pos m)) 53) as [H | H]; [exact H | ].
  exfalso. pose proof (digits2_pos_bound m) as [Hlo _].
  assert (2 ^ 53 <= 2 ^ (Zpos (digits2_pos m) - 1)) by (apply Z.pow_le_mono_r; lia).
  lia.
Qed.

(** The float of a positive integer below 2^53: the integer, shifted left
    to 53 bits. *)
Lemma binary_round_small (s : bool) (m : positive) :
  Zpos m < 2 ^ 53 ->
  exists m' e,
    binary_round prec emax s m 0 = S754_finite s m' e /\
    bounded prec emax m' e = true /\
    e <= 0 /\ Zpos m' = Zpos m * 2 ^ (- e).
Proof.
  intros Hm. pose proof (digits2_pos_small m Hm) as Hd.
  unfold binary_round, shl_align.
  assert (Hf : fexp prec emax (Zpos (digits2_pos m) + 0)
               = Zpos (digits2_pos m) - 53).
  { unfold fexp, emin, prec, emax. lia. }
  rewrite Hf.
  destruct (Zpos (digits2_pos m) - 53 - 0) as [ | d | d] eqn:Ed; try lia.
  - exists m, 0. assert (Hb : bounded prec emax m 0 = true).
    { unfold bounded, canonical_mantissa. rewrite Hf.
      apply andb_true_iff. split; [apply Z.eqb_eq; lia | reflexivity]. }
    rewrite binary_round_aux_canonical by exact Hb.
    repeat split; [exact Hb | lia | simpl; lia].
  - exists (Pos.iter xO m d), (Zpos (digits2_pos m) - 53).
    assert (Hb : bounded prec emax (Pos.iter xO m d) (Zpos (digits2_pos m) - 53) = true).
    { unfold bounded, canonical_mantissa. rewrite digits2_iter_xO.
      apply andb_true_iff. split.
      - apply Z.eqb_eq. unfold fexp, emin, prec, emax. lia.
      - apply Z.leb_le. unfold prec, emax. lia. }
    rewrite binary_round_aux_canonical by exact Hb.
    repeat split; [exact Hb | lia | ].
    rewrite Zpos_iter_xO. f_equal. f_equal. lia.
Qed.

Lemma float_of_int_small (z : Z) :
  Z.abs z < 2 ^ 53 ->
  is_valid (float_of_int z) = true /\ int_value (float_of_int z) = Some z.
Proof.
  intros Hz. unfold float_of_int, binary_normalize.
  destruct z as [ | m | m].
  - split; reflexivity.
  - destruct (binary_round_small false m) as (m' & e & -> & Hb & He & Hm); [exact Hz | ].
    split; [exact Hb | ]. unfold int_value.
    destruct (0 <=? e) eqn:E0.
    + apply Z.leb_le in E0. assert (e = 0) by lia. subst e.
      simpl in Hm. simpl. f_equal. lia.
    + rewrite Hm, Z.mod_mul, Z.eqb_refl, Z.div_mul by (apply Z.pow_nonzero; lia).
      reflexivity.
  - destruct (binary_round_small true m) as (m' & e & -> & Hb & He & Hm); [exact Hz | ].
    split; [exact Hb | ]. unfold int_value.
    destruct (0 <=? e) eqn:E0.
    + apply Z.leb_le in E0. assert (e = 0) by lia. subst e.
      simpl in Hm. simpl. f_equal. lia.
    + rewrite Hm, Z.mod_mul, Z.eqb_refl, Z.div_mul by (apply Z.pow_nonzero; lia).
      reflexivity.
Qed.

End Binary64.

(* ================================================================== *)
(** * The transformation                                               *)
(* ================================================================== *)

Section Transformation.

Lemma first_some_none {A B : Type} (f : A -> option B) (l : list A) :
  (forall a, In a l -> f a = None) -> first_some f l = None.
Proof.
  induction l as [ | a l IH]; intros H; [reflexivity | ].
  simpl. rewrite (H a (or_introl eq_refl)). apply IH.
  intros a' Ha'. apply H. right. exact Ha'.
Qed.

Lemma first_some_In {A B : Type} (f : A -> option B) (l : list A) (b : B) :
  first_some f l = Some b -> exists a, In a l /\ f a = Some b.
Proof.
  induction l as [ | a l IH]; simpl; [discriminate | ].
  destruct (f a) as [b' | ] eqn:E.
  - intros [= <-]. exists a. auto.
  - intros H. destruct (IH H) as (a' & Ha' & Hf). exists a'. auto.
Qed.

Lemma first_some_found {A B : Type} (f : A -> option B) (l : list A) (a : A) :
  In a l -> f a <> None -> first_some f l <> None.
Proof.
  induction l as [ | a' l IH]; simpl; [contradiction | ].
  intros [-> | Hin] Hf.
  - destruct (f a); [discriminate | contradiction].
  - destruct (f a'); [discriminate | apply IH; assumption].
Qed.

Lemma cell_mul_numeric (c : cell) :
  is_numeric c = true -> cell_mul one c = Ok (times_one c).
Proof.
  destruct c as [z | f | s]; simpl; [ | reflexivity | discriminate].
  destruct (is_infinite (float_of_int z)); [discriminate | reflexivity].
Qed.

Lemma cell_error_numeric (c : cell) :
  is_numeric c = true -> cell_error one c = None.
Proof. intros H. unfold cell_error. now rewrite (cell_mul_numeric c H). Qed.

Lemma cell_error_kinds (k : float64) (c : cell) (e : exn) :
  cell_error k c = Some e -> e = TypeError \/ e = OverflowError.
Proof.
  unfold cell_error. destruct c as [z | f | s]; simpl.
  - destruct (is_infinite (float_of_int z)); [intros [= <-]; auto | discriminate].
  - discriminate.
  - intros [= <-]. auto.
Qed.

Lemma cell_error_not_numeric (c : cell) :
  is_numeric c = false -> cell_error one c <> None.
Proof.
  unfold cell_error. destruct c as [z | f | s]; simpl.
  - destruct (is_infinite (float_of_int z)); [discriminate | discriminate].
  - discriminate.
  - discriminate.
Qed.

Lemma times_one_numeric (c : cell) :
  is_numeric c = true -> is_numeric (times_one c) = true.
Proof. destruct c; simpl; [reflexivity | reflexivity | discriminate]. Qed.

Lemma first_error_numeric (rows : list Row) :
  forallb (forallb is_numeric) rows = true -> first_error one rows = None.
Proof.
  intros H. unfold first_error. apply first_some_none. intros j _.
  unfold column_error. apply first_some_none. intros r Hr.
  destruct (nth_error r j) as [c | ] eqn:E; [ | reflexivity].
  apply cell_error_numeric. rewrite forallb_forall in H. specialize (H r Hr).
  rewrite forallb_forall in H. apply H. eapply nth_error_In, E.
Qed.

Lemma first_error_kinds (k : float64) (rows : list Row) (e : exn) :
  first_error k rows = Some e -> e = TypeError \/ e = OverflowError.
Proof.
  unfold first_error, column_error. intros H.
  apply first_some_In in H as (j & _ & H).
  apply first_some_In in H as (r & _ & H).
  destruct (nth_error r j) as [c | ]; [ | discriminate].
  apply (cell_error_kinds k c e H).
Qed.

Lemma first_error_not_numeric (rows : list Row) :
  forallb (forallb is_numeric) rows = false -> first_error one rows <> None.
Proof.
  intros H.
  assert (Hex : exists r c, In r rows /\ In c r /\ is_numeric c = false).
  { induction rows as [ | r rows IH]; [discriminate | ]. simpl in H.
    destruct (forallb is_numeric r) eqn:Er.
    - destruct (IH H) as (r' & c & Hr & Hc & Hn). exists r', c. simpl. auto.
    - exists r. clear IH H. induction r as [ | c r IH]; [discriminate | ].
      simpl in Er. destruct (is_numeric c) eqn:Ec.
      + destruct (IH Er) as (c' & _ & Hc & Hn). exists c'. simpl. auto.
      + exists c. simpl. auto. }
  destruct Hex as (r & c & Hr & Hc & Hn).
  apply In_nth_error in Hc as (j & Hj).
  unfold first_error. apply (first_some_found _ _ j).
  - apply in_seq. split; [lia | ]. simpl.
    assert (Hlt : (j < length r)%nat) by (apply nth_error_Some; congruence).
    assert (Hle : (length r <= list_max (map (@length cell) rows))%nat).
    { pose proof (proj1 (list_max_le (map (@length cell) rows) _) (le_n _)) as Hm.
      rewrite Forall_forall in Hm. apply Hm, in_map, Hr. }
    lia.
  - unfold column_error. apply (first_some_found _ _ r Hr).
    rewrite Hj. apply cell_error_not_numeric, Hn.
Qed.

(** [df * 1.0] on a numeric frame: every cell multiplied, labels kept. *)
Lemma df_mul_numeric (df : DataFrame) :
  numeric df = true ->
  df_mul df one = Ok (mkDF (columns df) (map (map times_one) (values df))).
Proof.
  unfold numeric, df_mul. intros H. rewrite (first_error_numeric _ H). reflexivity.
Qed.

(** [df * 1.0] on a frame with a cell that is not numeric raises. *)
Lemma df_mul_raises (df : DataFrame) :
  numeric df = false ->
  exists e, df_mul df one = Raise e /\ (e = TypeError \/ e = OverflowError).
Proof.
  unfold numeric, df_mul. intros H.
  destruct (first_error one (values df)) as [e | ] eqn:E.
  - exists e. split; [reflexivity | apply (first_error_kinds _ _ _ E)].
  - exfalso. apply (first_error_not_numeric _ H E).
Qed.

Lemma numeric_times_one (vs : list Row) :
  forallb (forallb is_numeric) vs = true ->
  forallb (forallb is_numeric) (map (map times_one) vs) = true.
Proof.
  intros H. rewrite forallb_forall in *. intros r' Hr'.
  apply in_map_iff in Hr' as (r & <- & Hr). specialize (H r Hr).
  rewrite forallb_forall in *. intros c' Hc'.
  apply in_map_iff in Hc' as (c & <- & Hc). apply times_one_numeric, H, Hc.
Qed.

Lemma times_one_float (c : cell) :
  is_numeric c = true -> is_float (times_one c) = true.
Proof. destruct c; simpl; [reflexivity | reflexivity | discriminate]. Qed.

Lemma float_numeric (vs : list Row) :
  forallb (forallb is_float) vs = true -> forallb (forallb is_numeric) vs = true.
Proof.
  intros H. rewrite forallb_forall in *. intros r Hr. specialize (H r Hr).
  rewrite forallb_forall in *. intros c Hc. specialize (H c Hc).
  destruct c; [discriminate | reflexivity | discriminate].
Qed.

Lemma floats_times_one (vs : list Row) :
  forallb (forallb is_numeric) vs = true ->
  forallb (forallb is_float) (map (map times_one) vs) = true.
Proof.
  intros H. rewrite forallb_forall in *. intros r' Hr'.
  apply in_map_iff in Hr' as (r & <- & Hr). specialize (H r Hr).
  rewrite forallb_forall in *. intros c' Hc'.
  apply in_map_iff in Hc' as (c & <- & Hc). apply times_one_float, H, Hc.
Qed.

Lemma iter_fixpoint {A : Type} (f : A -> A) (x : A) (n : positive) :
  f x = x -> Pos.iter f x n = x.
Proof.
  intros Hf. apply Pos.iter_invariant; [ | reflexivity].
  intros y ->. exact Hf.
Qed.

(** After the loop a numeric frame holds floats only, under its labels and
    with its row lengths. *)
Lemma loop_floats (df : DataFrame) :
  numeric df = true ->
  exists vs, loop df = Ok (mkDF (columns df) vs) /\
             map (@length cell) vs = map (@length cell) (values df) /\
             forallb (forallb is_float) vs = true.
Proof.
  intros Hn. unfold loop, loop_count.
  change 100000%positive with (Pos.succ 99999).
  rewrite Pos.iter_succ_r. simpl bind at 2.
  rewrite (df_mul_numeric df Hn).
  apply Pos.iter_invariant.
  - intros r (vs & -> & Hlen & Hfl). simpl.
    rewrite (df_mul_numeric (mkDF (columns df) vs)) by (apply float_numeric, Hfl).
    simpl. eexists. split; [reflexivity | ]. split.
    + rewrite <- Hlen, map_map. apply map_ext. intros r. apply length_map.
    + apply floats_times_one, float_numeric, Hfl.
  - eexists. split; [reflexivity | ]. split.
    + rewrite map_map. apply map_ext. intros r. apply length_map.
    + apply floats_times_one, Hn.
Qed.

(** The loop on a numeric frame ends with a frame of the same labels and
    the same row lengths. *)
Lemma loop_numeric (df : DataFrame) :
  numeric df = true ->
  exists vs, loop df = Ok (mkDF (columns df) vs) /\
             map (@length cell) vs = map (@length cell) (values df) /\
             forallb (forallb is_numeric) vs = true.
Proof.
  intros Hn. destruct (loop_floats df Hn) as (vs & Hl & Hlen & Hfl).
  exists vs. split; [exact Hl | split; [exact Hlen | apply float_numeric, Hfl]].
Qed.

(** The loop raises what its first turn raises. *)
Lemma loop_raises_with (df : DataFrame) (e : exn) :
  df_mul df one = Raise e -> loop df = Raise e.
Proof.
  intros He. unfold loop, loop_count.
  change 100000%positive with (Pos.succ 99999).
  rewrite Pos.iter_succ_r. simpl bind at 2.
  rewrite He. apply iter_fixpoint. reflexivity.
Qed.

(** The loop on a frame with a cell that is not numeric raises at its
    first turn. *)
Lemma loop_raises (df : DataFrame) :
  numeric df = false ->
  exists e, loop df = Raise e /\ (e = TypeError \/ e = OverflowError).
Proof.
  intros Hn. destruct (df_mul_raises df Hn) as (e & He & Hk).
  exists e. split; [apply loop_raises_with, He | exact Hk].
Qed.

(** The loop raises the first error of [df * 1.0]. *)
Lemma loop_first_error (df : DataFrame) (e : exn) :
  first_error one (values df) = Some e -> loop df = Raise e.
Proof. intros H. apply loop_raises_with. unfold df_mul. now rewrite H. Qed.

Lemma exact_numeric_cell (c : cell) : is_exact c = true -> is_numeric c = true.
Proof.
  destruct c as [z | f | s]; simpl; [ | reflexivity | discriminate].
  intros H. apply Z.ltb_lt in H. destruct (float_of_int_small z H) as [_ Hi].
  destruct (float_of_int z); [reflexivity | discriminate | reflexivity | reflexivity].
Qed.

Lemma exact_numeric (df : DataFrame) : exact df = true -> numeric df = true.
Proof.
  unfold exact, numeric. intros H. rewrite forallb_forall in *.
  intros r Hr. specialize (H r Hr). rewrite forallb_forall in *.
  intros c Hc. apply exact_numeric_cell, H, Hc.
Qed.

(** On an exact cell the first multiplication converts without loss and
    every later one changes nothing. *)
Lemma times_one_exact (c : cell) :
  is_exact c = true ->
  same_value c (times_one c) /\ times_one (times_one c) = times_one c.
Proof.
  destruct c as [z | f | s]; simpl; intros H.
  - apply Z.ltb_lt in H. destruct (float_of_int_small z H) as [Hv Hi].
    rewrite !(fmul_one _ Hv). split; [exact Hi | reflexivity].
  - rewrite !(fmul_one _ H). split; reflexivity.
  - discriminate.
Qed.

(** When a second multiplication changes nothing, the first one decides
    the result of the loop. *)
Lemma loop_settles (df : DataFrame) :
  numeric df = true ->
  map (map times_one) (map (map times_one) (values df))
  = map (map times_one) (values df) ->
  loop df = Ok (mkDF (columns df) (map (map times_one) (values df))).
Proof.
  intros Hn Hfix. unfold loop, loop_count.
  change 100000%positive with (Pos.succ 99999).
  rewrite Pos.iter_succ_r. simpl bind at 2.
  rewrite (df_mul_numeric df Hn). apply iter_fixpoint. simpl.
  rewrite df_mul_numeric by (apply numeric_times_one, Hn). simpl.
  now rewrite Hfix.
Qed.

(** The loop on an exact frame: one multiplication decides the result. *)
Lemma loop_exact (df : DataFrame) :
  exact df = true ->
  loop df = Ok (mkDF (columns df) (map (map times_one) (values df))).
Proof.
  intros He. apply loop_settles; [apply exact_numeric, He | ].
  rewrite map_map. apply map_ext_in. intros r Hr.
  rewrite map_map. apply map_ext_in. intros c Hc.
  apply times_one_exact. unfold exact in He. rewrite forallb_forall in He.
  specialize (He r Hr). rewrite forallb_forall in He. apply He, Hc.
Qed.

(** On an exact frame the result holds the values of the input. *)
Lemma times_one_same_value (vs : list Row) :
  forallb (forallb is_exact) vs = true ->
  Forall2 (Forall2 same_value) vs (map (map times_one) vs).
Proof.
  induction vs as [ | r vs IH]; simpl; intros H; [constructor | ].
  apply andb_true_iff in H as [Hr H]. constructor; [ | apply IH, H].
  clear IH H. induction r as [ | c r IH]; simpl in *; [constructor | ].
  apply andb_true_iff in Hr as [Hc Hr].
  constructor; [apply times_one_exact, Hc | apply IH, Hr].
Qed.

End Transformation.

(** From here on the loop is used through the lemmas above only. *)
Opaque loop.

(* ================================================================== *)
(** * The frame built from the accumulated rows                        *)
(* ================================================================== *)

Section FrameOfLists.

Lemma list_max_const (n : nat) (l : list nat) :
  l <> [] -> Forall (fun x => x = n) l -> list_max l = n.
Proof.
  intros Hne Hall. induction Hall as [ | x l -> Hl IH]; [contradiction | ].
  simpl. destruct l as [ | y l'].
  - simpl. apply Nat.max_0_r.
  - rewrite IH by discriminate. apply Nat.max_id.
Qed.

Lemma pad_full (n : nat) (r : Row) : length r = n -> pad n r = r.
Proof. intros <-. unfold pad. rewrite Nat.sub_diag. apply app_nil_r. Qed.

(** One row of the frame per row of the list. *)
Lemma DataFrame_of_lists_rows (rows : list Row) :
  length (values (DataFrame_of_lists rows)) = length rows.
Proof. unfold DataFrame_of_lists. simpl. apply length_map. Qed.

(** Rows of one width [n] are taken as they are, under the labels
    [0 .. n-1]. *)
Lemma DataFrame_of_lists_uniform (n : nat) (rows : list Row) :
  rows <> [] ->
  Forall (fun r => length r = n) rows ->
  DataFrame_of_lists rows = mkDF (map Idx (seq 0 n)) rows.
Proof.
  intros Hne Hall. unfold DataFrame_of_lists.
  assert (Hmax : list_max (map (@length cell) rows) = n).
  { apply list_max_const.
    - destruct rows; [contradiction | discriminate].
    - apply Forall_map. exact Hall. }
  rewrite Hmax. f_equal.
  rewrite <- (map_id rows) at 2. apply map_ext_in. intros r Hr.
  apply pad_full. rewrite Forall_forall in Hall. apply Hall, Hr.
Qed.

Lemma DataFrame_of_lists_values (n : nat) (rows : list Row) :
  Forall (fun r => length r = n) rows ->
  values (DataFrame_of_lists rows) = rows.
Proof.
  intros Hall. destruct rows as [ | r rows]; [reflexivity | ].
  rewrite (DataFrame_of_lists_uniform n); [reflexivity | discriminate | exact Hall].
Qed.

(** The labels of the built frame are never names. *)
Lemma DataFrame_of_lists_labels (rows : list Row) :
  Forall (fun l => is_name l = false) (columns (DataFrame_of_lists rows)).
Proof.
  unfold DataFrame_of_lists. simpl. apply Forall_map, Forall_forall.
  intros i _. reflexivity.
Qed.

Lemma list_max_perm (l1 l2 : list nat) :
  Permutation l1 l2 -> list_max l1 = list_max l2.
Proof.
  induction 1 as [ | x l l' _ IH | x y l | l l' l'' _ IH1 _ IH2]; simpl.
  - reflexivity.
  - now rewrite IH.
  - lia.
  - congruence.
Qed.

(** Permuted row lists give frames with the same labels and permuted rows. *)
Lemma DataFrame_of_lists_perm (rows1 rows2 : list Row) :
  Permutation rows1 rows2 ->
  columns (DataFrame_of_lists rows1) = columns (DataFrame_of_lists rows2) /\
  Permutation (values (DataFrame_of_lists rows1)) (values (DataFrame_of_lists rows2)).
Proof.
  intros Hp. unfold DataFrame_of_lists. simpl.
  rewrite (list_max_perm _ _ (Permutation_map (@length cell) Hp)).
  split; [reflexivity | apply Permutation_map, Hp].
Qed.

End FrameOfLists.

(* ================================================================== *)
(** * The pool: invariants of the scheduling steps                     *)
(* ================================================================== *)

Section Pool.

Import Parallel.

Lemma processData_numeric (df : DataFrame) :
  numeric df = true ->
  exists rows, processData df = Ok rows /\
               loop df = Ok (mkDF (columns df) rows) /\
               map (@length cell) rows = map (@length cell) (values df).
Proof.
  intros Hn. destruct (loop_numeric df Hn) as (vs & Hl & Hlen & _).
  exists vs. unfold processData. rewrite Hl. auto.
Qed.

Lemma processData_raises (df : DataFrame) :
  numeric df = false -> exists e, processData df = Raise e.
Proof.
  intros Hn. unfold processData. destruct (loop_raises df Hn) as (e & -> & _).
  exists e. reflexivity.
Qed.

Lemma processData_first_error (df : DataFrame) (e : exn) :
  first_error one (values df) = Some e -> processData df = Raise e.
Proof. intros H. unfold processData. now rewrite (loop_first_error df e H). Qed.

(** A job raises only when its frame has a cell that is not numeric. *)
Lemma processData_Raise_inv (df : DataFrame) (e : exn) :
  processData df = Raise e -> numeric df = false.
Proof.
  intros H. destruct (numeric df) eqn:En; [ | reflexivity].
  destruct (processData_numeric df En) as (rows & Hr & _). congruence.
Qed.

(** Handling an outcome appends the rows the job contributes. *)
Lemma set_result_job_rows (t : Task) (res : list Row) :
  set_result (processData (args t)) res = res ++ job_rows (args t).
Proof.
  unfold set_result, job_rows, rows_of, collect_results.
  destruct (processData (args t)); [reflexivity | symmetry; apply app_nil_r].
Qed.

(** The rows of a job whose frame is rectangular are as wide as the frame. *)
Lemma job_rows_width (df : DataFrame) :
  rectangular df = true ->
  Forall (fun r => length r = length (columns df)) (job_rows df).
Proof.
  intros Hrect. unfold job_rows, rows_of. destruct (numeric df) eqn:En.
  - destruct (processData_numeric df En) as (rows & -> & _ & Hlen).
    unfold rectangular in Hrect. rewrite forallb_forall in Hrect.
    assert (Hall : Forall (fun n => n = length (columns df)) (map (@length cell) rows)).
    { rewrite Hlen. apply Forall_map, Forall_forall. intros r Hr.
      apply Nat.eqb_eq, Hrect, Hr. }
    apply Forall_map in Hall. exact Hall.
  - destruct (processData_raises df En) as (e & ->). constructor.
Qed.

Lemma same_labels_eq (a b : list label) : same_labels a b = true -> a = b.
Proof. unfold same_labels. destruct (list_eq_dec label_eq_dec a b); [auto | discriminate]. Qed.

Lemma same_labels_refl (a : list label) : same_labels a a = true.
Proof. unfold same_labels. destruct (list_eq_dec label_eq_dec a a); [auto | contradiction]. Qed.

Lemma common_schema_In (cols : list label) (jobs : list DataFrame) (df : DataFrame) :
  common_schema cols jobs = true -> In df jobs ->
  columns df = cols /\ rectangular df = true.
Proof.
  unfold common_schema. rewrite forallb_forall. intros H Hin.
  specialize (H df Hin). apply andb_true_iff in H as [H1 H2].
  split; [apply same_labels_eq, H1 | exact H2].
Qed.

(** Under a common schema all contributed rows have the width of the schema. *)
Lemma common_schema_width (cols : list label) (jobs : list DataFrame) :
  common_schema cols jobs = true ->
  Forall (fun r => length r = length cols) (flat_map job_rows jobs).
Proof.
  intros H. apply Forall_flat_map, Forall_forall. intros df Hin.
  destruct (common_schema_In cols jobs df H Hin) as [<- Hrect].
  apply job_rows_width, Hrect.
Qed.

Lemma tasks_from_args (i : nat) (jobs : list DataFrame) :
  map args (tasks_from i jobs) = jobs.
Proof.
  revert i. induction jobs as [ | df jobs IH]; intros i; simpl;
    [reflexivity | now rewrite IH].
Qed.

Lemma tasks_from_job (i : nat) (jobs : list DataFrame) :
  map job (tasks_from i jobs) = seq i (length jobs).
Proof.
  revert i. induction jobs as [ | df jobs IH]; intros i; simpl;
    [reflexivity | now rewrite IH].
Qed.

Lemma flat_map_tasks (i : nat) (jobs : list DataFrame) :
  flat_map (fun t => job_rows (args t)) (tasks_from i jobs) = flat_map job_rows jobs.
Proof.
  rewrite <- (tasks_from_args i jobs) at 2.
  rewrite !flat_map_concat_map, map_map. reflexivity.
Qed.

Lemma invariant_init (jobs : list DataFrame) : invariant jobs (init jobs).
Proof. split; simpl; [reflexivity | apply Permutation_refl]. Qed.

Lemma invariant_step (jobs : list DataFrame) (k : nat) (s s' : State) :
  invariant jobs s -> step k s s' -> invariant jobs s'.
Proof.
  intros [Hres Hperm] Hstep.
  destruct Hstep; unfold invariant; cbn [results completed running taskqueue todo] in *; split.
  - exact Hres.
  - rewrite <- Hperm, <- app_assoc. reflexivity.
  - exact Hres.
  - rewrite <- Hperm, <- app_assoc. reflexivity.
  - rewrite set_result_job_rows, Hres, flat_map_app. cbn [flat_map].
    now rewrite app_nil_r.
  - rewrite <- Hperm, <- !app_assoc. apply Permutation_app_head.
    cbn [app]. apply Permutation_middle.
Qed.

Lemma invariant_steps (jobs : list DataFrame) (k : nat) (s : State) :
  steps k (init jobs) s -> invariant jobs s.
Proof.
  remember (init jobs) as s0 eqn:E. induction 1 as [s | s1 s2 s3 _ IH Hstep].
  - subst. apply invariant_init.
  - eapply invariant_step; [apply IH, E | exact Hstep].
Qed.

(** After [join], the handled tasks are the submitted ones, each once. *)
Lemma joined_completed (jobs : list DataFrame) (k : nat) (s : State) :
  steps k (init jobs) s -> joined s ->
  Permutation (completed s) (tasks_from 0 jobs).
Proof.
  intros Hs (Ht & Hq & Hr). destruct (invariant_steps jobs k s Hs) as [_ Hp].
  rewrite Ht, Hq, Hr in Hp. simpl in Hp. now rewrite app_nil_r in Hp.
Qed.

(** After [join], the accumulator holds the rows of all jobs, permuted. *)
Lemma joined_results (jobs : list DataFrame) (k : nat) (s : State) :
  steps k (init jobs) s -> joined s ->
  Permutation (results s) (flat_map job_rows jobs).
Proof.
  intros Hs Hj. destruct (invariant_steps jobs k s Hs) as [Hres _].
  rewrite Hres, <- (flat_map_tasks 0 jobs).
  apply Permutation_flat_map. eapply joined_completed; eassumption.
Qed.

Lemma steps_trans (k : nat) (s1 s2 s3 : State) :
  steps k s1 s2 -> steps k s2 s3 -> steps k s1 s3.
Proof.
  intros H12 H23. induction H23 as [ | s2 s3 s4 _ IH Hstep]; [exact H12 | ].
  eapply steps_step; [apply IH, H12 | exact Hstep].
Qed.

Lemma steps_one (k : nat) (s1 s2 : State) : step k s1 s2 -> steps k s1 s2.
Proof. intros H. eapply steps_step; [apply steps_refl | exact H]. Qed.

(** With one worker at least the cell terminates: submitting, taking and
    handling the tasks one after the other empties the pool, and hands
    the tasks over in submission order. *)
Lemma fifo_run (k : nat) (ts : list Task) (res : list Row) (done : list Task) :
  (1 <= k)%nat ->
  steps k (mkState ts [] [] res done)
          (mkState [] [] [] (res ++ flat_map (fun t => job_rows (args t)) ts)
                   (done ++ ts)).
Proof.
  intros Hk. revert res done.
  induction ts as [ | t ts IH]; intros res done; cbn [flat_map].
  - rewrite !app_nil_r. apply steps_refl.
  - replace (done ++ t :: ts) with ((done ++ [t]) ++ ts)
      by (rewrite <- app_assoc; reflexivity).
    rewrite app_assoc, <- set_result_job_rows.
    eapply steps_trans; [ | apply IH].
    eapply steps_trans; [apply steps_one, step_apply_async | ].
    eapply steps_trans;
      [apply steps_one, (step_take k t ts [] [] res done); cbn [length]; lia | ].
    apply steps_one. apply (step_report k t ts [] [] [] res done).
Qed.

Lemma submit_total (jobs : list DataFrame) (k : nat) :
  (1 <= k)%nat -> exists T, submit jobs k (Ok T).
Proof.
  intros Hk. eexists. eapply submit_joined; [exact Hk | | ].
  - apply (fifo_run k (tasks_from 0 jobs) [] [] Hk).
  - repeat split.
Qed.

(** Every outcome of [submit] with a pool of at least one worker is a
    table built from an accumulator that a finished run left. *)
Lemma submit_inv (jobs : list DataFrame) (k : nat) (out : result DataFrame) :
  (1 <= k)%nat -> submit jobs k out ->
  exists s, steps k (init jobs) s /\ joined s /\
            out = Ok (DataFrame_of_lists (results s)).
Proof.
  intros Hk H. destruct H as [H0 | s _ Hs Hj]; [lia | ].
  exists s. auto.
Qed.

(** The executable scheduler only makes steps of the pool. *)
Lemma fire_step (k : nat) (ev : event) (s s' : State) :
  fire k ev s = Some s' -> step k s s'.
Proof.
  destruct s as [td q run res done]. destruct ev as [ | | i]; simpl.
  - destruct td as [ | t td]; [discriminate | ].
    intros [= <-]. constructor.
  - destruct q as [ | t q]; [discriminate | ].
    destruct (length run <? k)%nat eqn:E; [ | discriminate].
    intros [= <-]. constructor. apply Nat.ltb_lt, E.
  - destruct (skipn i run) as [ | t run2] eqn:E; [discriminate | ].
    intros [= <-]. rewrite <- (firstn_skipn i run) at 1. rewrite E.
    constructor.
Qed.

Lemma run_steps (k : nat) (evs : list event) (s s' : State) :
  run k evs s = Some s' -> steps k s s'.
Proof.
  revert s. induction evs as [ | ev evs IH]; intros s; simpl.
  - intros [= <-]. apply steps_refl.
  - destruct (fire k ev s) as [s1 | ] eqn:E; [ | discriminate].
    intros H. eapply steps_trans; [apply steps_one, (fire_step k ev), E | apply IH, H].
Qed.

Lemma joinedb_joined (s : State) : joinedb s = true -> joined s.
Proof.
  destruct s as [td q run res done]. unfold joinedb, joined. simpl.
  destruct td, q, run; try discriminate. auto.
Qed.

End Pool.

(* ================================================================== *)
(** * The serial cell                                                  *)
(* ================================================================== *)

Section SerialCell.

Import Serial.

(** The loop of the serial cell appends one frame per job, in job order,
    as long as no job raises. *)
Lemma for_append_ok (jobs outs rs : list DataFrame) :
  Forall2 (fun df r => processData df = Ok r) jobs outs ->
  for_append jobs rs = (rs ++ outs, None).
Proof.
  intros H. revert rs. induction H as [ | df r jobs outs Hdf _ IH]; intros rs; simpl.
  - now rewrite app_nil_r.
  - rewrite Hdf, IH, <- app_assoc. reflexivity.
Qed.

Lemma for_append_inv (jobs rs rs' : list DataFrame) :
  for_append jobs rs = (rs', None) ->
  exists outs, rs' = rs ++ outs /\
               Forall2 (fun df r => processData df = Ok r) jobs outs.
Proof.
  revert rs. induction jobs as [ | df jobs IH]; intros rs; simpl.
  - intros [= <-]. exists []. split; [now rewrite app_nil_r | constructor].
  - destruct (processData df) as [r | e] eqn:E; [ | discriminate].
    intros H. destruct (IH _ H) as (outs & -> & Hall).
    exists (r :: outs). split; [now rewrite <- app_assoc | now constructor].
Qed.

(** A job that raises stops the loop with its exception. *)
Lemma for_append_raises (jobs rs : list DataFrame) (df : DataFrame) :
  In df jobs -> numeric df = false ->
  exists rs' e, for_append jobs rs = (rs', Some e).
Proof.
  revert rs. induction jobs as [ | d jobs IH]; intros rs Hin Hn; [contradiction | ].
  simpl. destruct (processData d) as [r | e] eqn:E.
  - destruct Hin as [-> | Hin].
    + unfold processData in E. destruct (loop_raises df Hn) as (e & He & _).
      rewrite He in E. discriminate.
    + apply IH; assumption.
  - eauto.
Qed.

Lemma cast_row_floats (flags : nat -> bool) (j : nat) (r : Row) :
  forallb is_float r = true -> cast_row flags j r = r.
Proof.
  revert j. induction r as [ | c r IH]; intros j H; [reflexivity | ].
  simpl in H. apply andb_true_iff in H as [Hc H]. simpl.
  rewrite (IH (S j) H). destruct c; try discriminate.
  destruct (flags j); reflexivity.
Qed.

(** Nothing is converted in a table of floats. *)
Lemma astype_floats (na : nat -> bool) (rows : list Row) :
  forallb (forallb is_float) rows = true -> astype na rows = rows.
Proof.
  intros H. unfold astype. rewrite <- (map_id rows) at 3.
  apply map_ext_in. intros r Hr. apply cast_row_floats.
  rewrite forallb_forall in H. apply H, Hr.
Qed.

Lemma cast_row_length (flags : nat -> bool) (j : nat) (r : Row) :
  length (cast_row flags j r) = length r.
Proof. revert j. induction r as [ | c r IH]; intros j; simpl; [ | rewrite IH]; reflexivity. Qed.

(** Conversion keeps the rows and their lengths. *)
Lemma astype_widths (na : nat -> bool) (rows : list Row) :
  map (@length cell) (astype na rows) = map (@length cell) rows.
Proof.
  unfold astype. rewrite map_map. apply map_ext. intros r. apply cast_row_length.
Qed.

Lemma astype_length (na : nat -> bool) (rows : list Row) :
  length (astype na rows) = length rows.
Proof. unfold astype. apply length_map. Qed.

Lemma floats_flat_map (objs : list DataFrame) :
  Forall (fun o => forallb (forallb is_float) (values o) = true) objs ->
  forallb (forallb is_float) (flat_map values objs) = true.
Proof.
  intros H. apply forallb_forall. intros r Hr.
  apply in_flat_map in Hr as (o & Ho & Hr). rewrite Forall_forall in H.
  specialize (H o Ho). rewrite forallb_forall in H. apply H, Hr.
Qed.

(** [pd.concat] of frames of floats that all carry the labels [cols]: the
    rows one after the other, under [cols]. *)
Lemma concat_same_columns (cols : list label) (objs : list DataFrame) :
  objs <> [] ->
  Forall (fun o => columns o = cols) objs ->
  Forall (fun o => forallb (forallb is_float) (values o) = true) objs ->
  concat objs = Ok (mkDF cols (flat_map values objs)).
Proof.
  intros Hne Hall Hfl. destruct objs as [ | o objs]; [contradiction | ].
  unfold concat, same_columns.
  assert (Ho : columns o = cols) by (inversion Hall; assumption).
  assert (Hfast : forallb (fun o' => same_labels (columns o') (columns o)) (o :: objs) = true).
  { apply forallb_forall. intros o' Hin. rewrite Forall_forall in Hall.
    rewrite (Hall o' Hin), Ho. apply same_labels_refl. }
  rewrite Hfast, Ho. do 2 f_equal.
  assert (Heq : flat_map (fun o' => astype no_na (values o')) (o :: objs)
                = flat_map values (o :: objs)).
  { rewrite !flat_map_concat_map. f_equal. apply map_ext_in. intros o' Hin.
    apply astype_floats. rewrite Forall_forall in Hfl. apply Hfl, Hin. }
  rewrite Heq. apply astype_floats, floats_flat_map, Hfl.
Qed.

(** The rows a job contributes are rows of floats. *)
Lemma job_rows_floats (df : DataFrame) :
  forallb (forallb is_float) (Parallel.job_rows df) = true.
Proof.
  unfold Parallel.job_rows, Parallel.rows_of, Parallel.processData.
  destruct (numeric df) eqn:En.
  - destruct (loop_floats df En) as (vs & -> & _ & Hfl). exact Hfl.
  - destruct (loop_raises df En) as (e & -> & _). reflexivity.
Qed.

(** What the serial cell computes when every job succeeds. *)
Lemma serial_submit_outs (jobs outs : list DataFrame) :
  Forall2 (fun df r => processData df = Ok r) jobs outs ->
  submit jobs = concat outs.
Proof.
  intros H. unfold submit, run_cell.
  rewrite (for_append_ok jobs outs [] H). simpl.
  destruct (concat outs); reflexivity.
Qed.

Lemma serial_submit_Ok_inv (jobs : list DataFrame) (T : DataFrame) :
  submit jobs = Ok T ->
  exists outs, Forall2 (fun df r => processData df = Ok r) jobs outs /\
               concat outs = Ok T.
Proof.
  unfold submit, run_cell. intros H.
  destruct (for_append jobs []) as [rs [e | ]] eqn:E; [discriminate | ].
  destruct (for_append_inv jobs [] rs E) as (outs & -> & Hall).
  exists outs. split; [exact Hall | ].
  simpl in H. destruct (concat outs) as [t | e]; simpl in H; congruence.
Qed.

(** A job that raises makes the serial cell raise. *)
Lemma serial_submit_raises (jobs : list DataFrame) (df : DataFrame) :
  In df jobs -> numeric df = false -> exists e, submit jobs = Raise e.
Proof.
  intros Hin Hn. unfold submit, run_cell.
  destruct (for_append_raises jobs [] df Hin Hn) as (rs' & e & ->).
  exists e. reflexivity.
Qed.

(** The frames of the jobs, when every job is numeric. *)
Lemma serial_outs (jobs : list DataFrame) :
  forallb numeric jobs = true ->
  Forall2 (fun df r => processData df = Ok r) jobs
          (map (fun df => mkDF (columns df) (Parallel.job_rows df)) jobs).
Proof.
  induction jobs as [ | df jobs IH]; simpl; intros H; [constructor | ].
  apply andb_true_iff in H as [Hn H]. constructor; [ | apply IH, H].
  destruct (processData_numeric df Hn) as (rows & Hp & Hl & _).
  unfold processData, Parallel.job_rows. rewrite Hp. exact Hl.
Qed.

(** Under a common schema, the serial cell returns the rows of the jobs in
    job order, under the labels of the schema. *)
Lemma serial_submit_schema (cols : list label) (jobs : list DataFrame) :
  jobs <> [] ->
  common_schema cols jobs = true ->
  forallb numeric jobs = true ->
  submit jobs = Ok (mkDF cols (flat_map Parallel.job_rows jobs)).
Proof.
  intros Hne Hs Hn. rewrite (serial_submit_outs jobs _ (serial_outs jobs Hn)).
  rewrite (concat_same_columns cols).
  - do 2 f_equal. rewrite !flat_map_concat_map, map_map. reflexivity.
  - destruct jobs; [contradiction | discriminate].
  - apply Forall_map, Forall_forall. intros df Hin. simpl.
    apply (common_schema_In cols jobs df Hs Hin).
  - apply Forall_map, Forall_forall. intros df _. apply job_rows_floats.
Qed.

Lemma submit_Ok_numeric (jobs : list DataFrame) (T : DataFrame) :
  submit jobs = Ok T -> jobs <> [] /\ forallb numeric jobs = true.
Proof.
  intros H. destruct (serial_submit_Ok_inv jobs T H) as (outs & Hall & Hc).
  split.
  - intros ->. inversion Hall; subst. discriminate.
  - apply forallb_forall. intros df Hin.
    destruct (numeric df) eqn:En; [reflexivity | ].
    destruct (serial_submit_raises jobs df Hin En) as (e & He). congruence.
Qed.

End SerialCell.

(* ================================================================== *)
(** * The combined table of the parallel cell                          *)
(* ================================================================== *)

Section CombinedTable.

Import Parallel.

(** After [join] under a common schema the table holds the accumulator as
    it is. *)
Lemma joined_values (cols : list label) (jobs : list DataFrame) (k : nat) (s : State) :
  common_schema cols jobs = true ->
  steps k (init jobs) s -> joined s ->
  values (DataFrame_of_lists (results s)) = results s.
Proof.
  intros Hs Hsteps Hj. apply (DataFrame_of_lists_values (length cols)).
  eapply Permutation_Forall.
  - apply Permutation_sym. eapply joined_results; eassumption.
  - apply common_schema_width, Hs.
Qed.

(** C5: in every run of the parallel cell the accumulator is, after each
    handled completion, the concatenation of the rows of the jobs handled
    so far in the order of handling; once the pool is joined every job has
    been handled exactly once, and under a common schema the rows of the
    combined table are this concatenation in completion order. *)
Theorem accumulator_follows_completion_order
  (jobs : list DataFrame) (k : nat) (s : State) :
  steps k (init jobs) s ->
  results s = flat_map (fun t => job_rows (args t)) (completed s) /\
  (joined s ->
   Permutation (completed s) (tasks_from 0 jobs) /\
   forall cols, common_schema cols jobs = true ->
     values (DataFrame_of_lists (results s))
     = flat_map (fun t => job_rows (args t)) (completed s)).
Proof.
  intros Hsteps. destruct (invariant_steps jobs k s Hsteps) as [Hres _].
  split; [exact Hres | ]. intros Hj. split.
  - eapply joined_completed; eassumption.
  - intros cols Hs. rewrite (joined_values cols jobs k s Hs Hsteps Hj). exact Hres.
Qed.

Lemma overtaking_run : steps 2 (init two_jobs) overtaken.
Proof. apply (run_steps 2 overtaking). reflexivity. Qed.

(** C5 on the run of two workers in which job 1 is handled before job 0. *)
Lemma accumulator_follows_completion_order_witness :
  map job (completed overtaken) = [1; 0]%nat /\
  results overtaken
  = flat_map (fun t => job_rows (args t)) (completed overtaken) /\
  (joined overtaken ->
   Permutation (completed overtaken) (tasks_from 0 two_jobs) /\
   forall cols, common_schema cols two_jobs = true ->
     values (DataFrame_of_lists (results overtaken))
     = flat_map (fun t => job_rows (args t)) (completed overtaken)).
Proof.
  split; [reflexivity | ].
  apply (accumulator_follows_completion_order two_jobs 2 overtaken).
  exact overtaking_run.
Defined.

(** C3: whatever the pool size and the order of completion, the combined
    table has as many rows as the job results have together, and under a
    common schema its rows are the rows of the job results, each as often
    as it occurs there. *)
Theorem combined_table_keeps_every_row (jobs : list DataFrame) (k : nat) :
  (1 <= k)%nat ->
  (exists T, submit jobs k (Ok T)) /\
  forall T, submit jobs k (Ok T) ->
    length (values T) = list_sum (map (fun df => length (job_rows df)) jobs) /\
    forall cols, common_schema cols jobs = true ->
      Permutation (values T) (flat_map job_rows jobs).
Proof.
  intros Hk. split; [apply submit_total, Hk | ].
  intros T HT. destruct (submit_inv jobs k _ Hk HT) as (s & Hsteps & Hj & E).
  injection E as ->. split.
  - rewrite DataFrame_of_lists_rows, <- length_flat_map.
    apply Permutation_length. eapply joined_results; eassumption.
  - intros cols Hs. rewrite (joined_values cols jobs k s Hs Hsteps Hj).
    eapply joined_results; eassumption.
Qed.

(** C3 on two jobs and two workers. *)
Lemma combined_table_keeps_every_row_witness :
  (exists T, submit two_jobs 2 (Ok T)) /\
  forall T, submit two_jobs 2 (Ok T) ->
    length (values T) = list_sum (map (fun df => length (job_rows df)) two_jobs) /\
    forall cols, common_schema cols two_jobs = true ->
      Permutation (values T) (flat_map job_rows two_jobs).
Proof. apply (combined_table_keeps_every_row two_jobs 2). lia. Defined.

(** C4, refuted as stated: on the empty job list the parallel cell
    returns a table for every pool size, and the serial cell returns
    none, it raises [ValueError]; there is no serial table whose rows
    could be those of the parallel one. *)
Lemma empty_jobs_have_no_serial_table :
  submit [] 1 (Ok (mkDF [] [])) /\
  submit [] 8 (Ok (mkDF [] [])) /\
  Serial.submit [] = Raise ValueError.
Proof.
  split; [ | split; [ | reflexivity]].
  - apply (submit_joined [] 1 (init [])); [lia | apply steps_refl | repeat split].
  - apply (submit_joined [] 8 (init [])); [lia | apply steps_refl | repeat split].
Qed.

(** C4, as the code has it: the pool size does not change the content of
    the combined table: for any two sizes, also sizes above the number of
    jobs, the parallel cell returns a table, and the tables have the same
    labels and the same rows up to order.  The serial cell returns a
    table when the job list is not empty and every job is numeric; under
    a common schema its rows are then those of every parallel table up to
    order.  On the empty list, and when a job raises, the serial cell
    raises and returns no table. *)
Theorem worker_count_does_not_change_rows (jobs : list DataFrame) (k1 k2 : nat) :
  (1 <= k1)%nat -> (1 <= k2)%nat ->
  (exists T, submit jobs k1 (Ok T)) /\
  (forall T1 T2, submit jobs k1 (Ok T1) -> submit jobs k2 (Ok T2) ->
     columns T1 = columns T2 /\ Permutation (values T1) (values T2)) /\
  (forall cols, jobs <> [] -> common_schema cols jobs = true ->
     forallb numeric jobs = true ->
     exists Ts, Serial.submit jobs = Ok Ts /\
                forall T1, submit jobs k1 (Ok T1) ->
                           Permutation (values T1) (values Ts)) /\
  (jobs = [] \/ forallb numeric jobs = false ->
   exists e, Serial.submit jobs = Raise e).
Proof.
  intros Hk1 Hk2. split; [apply submit_total, Hk1 | ]. split; [ | split].
  - intros T1 T2 H1 H2.
    destruct (submit_inv jobs k1 _ Hk1 H1) as (s1 & Hs1 & Hj1 & E1).
    destruct (submit_inv jobs k2 _ Hk2 H2) as (s2 & Hs2 & Hj2 & E2).
    injection E1 as ->. injection E2 as ->.
    apply DataFrame_of_lists_perm.
    rewrite (joined_results jobs k1 s1 Hs1 Hj1).
    apply Permutation_sym. eapply joined_results; eassumption.
  - intros cols Hne Hs Hn. eexists.
    split; [apply (serial_submit_schema cols jobs Hne Hs Hn) | ].
    intros T1 H1.
    destruct (submit_inv jobs k1 _ Hk1 H1) as (s1 & Hs1 & Hj1 & E1).
    injection E1 as ->. cbn [values].
    rewrite (joined_values cols jobs k1 s1 Hs Hs1 Hj1).
    eapply joined_results; eassumption.
  - intros [-> | Hn]; [exists ValueError; reflexivity | ].
    assert (Hex : exists df, In df jobs /\ numeric df = false).
    { induction jobs as [ | d jobs IH]; [discriminate | ]. simpl in Hn.
      destruct (numeric d) eqn:Ed.
      - destruct (IH Hn) as (df & Hin & Hdf). exists df. simpl. auto.
      - exists d. simpl. auto. }
    destruct Hex as (df & Hin & Hdf).
    apply (serial_submit_raises jobs df Hin Hdf).
Qed.

(** C4 (as the code has it) on two jobs, with one worker against eight. *)
Lemma worker_count_does_not_change_rows_witness :
  (exists T, submit two_jobs 1 (Ok T)) /\
  (forall T1 T2, submit two_jobs 1 (Ok T1) -> submit two_jobs 8 (Ok T2) ->
     columns T1 = columns T2 /\ Permutation (values T1) (values T2)) /\
  (exists Ts, Serial.submit two_jobs = Ok Ts /\
              forall T1, submit two_jobs 1 (Ok T1) ->
                         Permutation (values T1) (values Ts)).
Proof.
  destruct (worker_count_does_not_change_rows two_jobs 1 8) as (H1 & H2 & H3 & _);
    [lia | lia | ].
  split; [exact H1 | split; [exact H2 | ]].
  apply (H3 [Name "x"%string]); [discriminate | reflexivity | reflexivity].
Defined.

End CombinedTable.

(* ================================================================== *)
(** * Failing jobs, the empty job list, the sample workload            *)
(* ================================================================== *)

Section Outcomes.

Import Parallel.

Lemma job_rows_settles (df : DataFrame) :
  numeric df = true ->
  map (map times_one) (map (map times_one) (values df))
  = map (map times_one) (values df) ->
  job_rows df = map (map times_one) (values df).
Proof.
  intros Hn Hfix. unfold job_rows, processData.
  rewrite (loop_settles df Hn Hfix). reflexivity.
Qed.

Lemma job_rows_raises (df : DataFrame) : numeric df = false -> job_rows df = [].
Proof.
  intros Hn. unfold job_rows. destruct (processData_raises df Hn) as (e & ->).
  reflexivity.
Qed.

Lemma job_rows_length (df : DataFrame) :
  numeric df = true -> length (job_rows df) = length (values df).
Proof.
  intros Hn. destruct (processData_numeric df Hn) as (rows & Hp & _ & Hlen).
  unfold job_rows, rows_of. rewrite Hp.
  transitivity (length (map (@length cell) rows));
    [symmetry; apply length_map | rewrite Hlen; apply length_map].
Qed.

(** Every outcome of a pool of at least one worker is the table of some
    arrangement of the rows the jobs contribute. *)
Lemma submit_outcome (jobs : list DataFrame) (k : nat) (out : result DataFrame) :
  (1 <= k)%nat -> submit jobs k out ->
  exists rows, out = Ok (DataFrame_of_lists rows) /\
               Permutation rows (flat_map job_rows jobs).
Proof.
  intros Hk H. destruct (submit_inv jobs k out Hk H) as (s & Hs & Hj & ->).
  exists (results s). split; [reflexivity | eapply joined_results; eassumption].
Qed.

Lemma submit_row_count (jobs : list DataFrame) (k : nat) (out : result DataFrame) :
  (1 <= k)%nat -> submit jobs k out ->
  exists T, out = Ok T /\
            length (values T) = list_sum (map (fun df => length (job_rows df)) jobs).
Proof.
  intros Hk H. destruct (submit_outcome jobs k out Hk H) as (rows & -> & Hp).
  eexists. split; [reflexivity | ].
  rewrite DataFrame_of_lists_rows, <- length_flat_map. apply Permutation_length, Hp.
Qed.

(** C1, as the code has it: in the parallel cell a job whose transformation
    raises contributes no rows and its exception reaches nobody; [submit]
    returns a table all the same, built from the rows of the other jobs.
    Only the serial cell fails as a whole when a job raises. *)
Theorem failing_job_is_dropped_in_parallel (jobs : list DataFrame) (k : nat) :
  (1 <= k)%nat ->
  (exists T, submit jobs k (Ok T)) /\
  (forall out, submit jobs k out ->
     exists T, out = Ok T /\
       length (values T) = list_sum (map (fun df => length (job_rows df)) jobs)) /\
  (forall df e, In df jobs -> processData df = Raise e ->
     job_rows df = [] /\ exists e', Serial.submit jobs = Raise e').
Proof.
  intros Hk. split; [apply submit_total, Hk | ]. split.
  - intros out H. apply (submit_row_count jobs k out Hk H).
  - intros df e Hin He. pose proof (processData_Raise_inv df e He) as Hn. split.
    + apply job_rows_raises, Hn.
    + apply (serial_submit_raises jobs df Hin Hn).
Qed.

(** C1 (as the code has it) on ten jobs of which the fifth raises. *)
Lemma failing_job_is_dropped_in_parallel_witness :
  (exists T, submit failing_jobs 8 (Ok T)) /\
  (forall out, submit failing_jobs 8 out ->
     exists T, out = Ok T /\
       length (values T)
       = list_sum (map (fun df => length (job_rows df)) failing_jobs)) /\
  (forall df e, In df failing_jobs -> processData df = Raise e ->
     job_rows df = [] /\ exists e', Serial.submit failing_jobs = Raise e').
Proof. apply (failing_job_is_dropped_in_parallel failing_jobs 8). lia. Defined.

Lemma frame_int_rows : length (job_rows frame_int) = 1%nat.
Proof. rewrite job_rows_length; reflexivity. Qed.

(** C1, refuted as stated: with ten jobs of which the fifth raises, the
    parallel [submit] does not fail; it returns a table of the nine rows
    of the other jobs. *)
Lemma failing_job_goes_unreported :
  processData frame_str = Raise TypeError /\
  (exists T, submit failing_jobs 8 (Ok T)) /\
  (forall out, submit failing_jobs 8 out ->
     exists T, out = Ok T /\ length (values T) = 9%nat).
Proof.
  split; [apply processData_first_error; reflexivity | ].
  split; [apply submit_total; lia | ].
  intros out H.
  destruct (submit_row_count failing_jobs 8 out) as (T & -> & Hlen); [lia | exact H | ].
  exists T. split; [reflexivity | ]. rewrite Hlen.
  unfold failing_jobs. cbn [repeat app map list_sum].
  rewrite frame_int_rows, (job_rows_raises frame_str) by reflexivity.
  reflexivity.
Qed.

(** C6, refuted as stated: on the empty job list the parallel [submit]
    returns a table without columns; it does not carry the five labels of
    the input schema. *)
Lemma empty_submit_has_no_schema :
  submit [] 8 (Ok (mkDF [] [])) /\
  shape (mkDF [] []) = (0, 0)%nat /\
  columns (mkDF [] []) <> fisher_columns.
Proof.
  split; [ | split; [reflexivity | discriminate]].
  apply (submit_joined [] 8 (init [])); [lia | apply steps_refl | repeat split].
Qed.

(** C6, as the code has it: for every pool size of at least one, the
    parallel [submit] on the empty job list returns the table with no row
    and no column, and nothing else; the serial cell raises [ValueError]
    on the empty list. *)
Theorem empty_submit_is_the_empty_frame (k : nat) :
  (1 <= k)%nat ->
  submit [] k (Ok (mkDF [] [])) /\
  (forall out, submit [] k out -> out = Ok (mkDF [] [])) /\
  Serial.submit [] = Raise ValueError.
Proof.
  intros Hk. split; [ | split].
  - apply (submit_joined [] k (init [])); [exact Hk | apply steps_refl | repeat split].
  - intros out H. destruct (submit_outcome [] k out Hk H) as (rows & -> & Hp).
    cbn [flat_map] in Hp. apply Permutation_sym, Permutation_nil in Hp.
    subst rows. reflexivity.
  - reflexivity.
Qed.

(** C6 (as the code has it) with eight workers. *)
Lemma empty_submit_is_the_empty_frame_witness :
  submit [] 8 (Ok (mkDF [] [])) /\
  (forall out, submit [] 8 out -> out = Ok (mkDF [] [])) /\
  Serial.submit [] = Raise ValueError.
Proof. apply (empty_submit_is_the_empty_frame 8). lia. Defined.

End Outcomes.

(* ================================================================== *)
(** * The two cells side by side                                       *)
(* ================================================================== *)

Section TwoCells.

Import Parallel.

Lemma common_schema_repeat (df : DataFrame) (n : nat) :
  rectangular df = true -> common_schema (columns df) (repeat df n) = true.
Proof.
  intros Hr. unfold common_schema. apply forallb_forall.
  intros d Hd. apply repeat_spec in Hd. subst d.
  rewrite same_labels_refl, Hr. reflexivity.
Qed.

Lemma numeric_repeat (df : DataFrame) (n : nat) :
  numeric df = true -> forallb numeric (repeat df n) = true.
Proof.
  intros Hn. apply forallb_forall. intros d Hd.
  apply repeat_spec in Hd. now subst d.
Qed.

Lemma flat_map_repeat_length {A B : Type} (f : A -> list B) (a : A) (n : nat) :
  length (flat_map f (repeat a n)) = (n * length (f a))%nat.
Proof.
  induction n as [ | n IH]; simpl; [reflexivity | ].
  rewrite length_app, IH. reflexivity.
Qed.

(** C2: ten jobs on one numeric frame of 150 rows and 5 columns.  The
    parallel cell with 8 workers terminates and every table it can return
    has shape (1500, 5); the serial cell returns a table of shape
    (1500, 5) under the labels of the frame, whose rows are the 150 rows
    of job 0, then those of job 1, and so on. *)
Theorem ten_jobs_give_1500_rows (df : DataFrame) :
  shape df = (150, 5)%nat ->
  rectangular df = true ->
  numeric df = true ->
  (exists T, main df 8 (Ok T)) /\
  (forall out, main df 8 out -> exists T, out = Ok T /\ shape T = (1500, 5)%nat) /\
  (exists T, Serial.main df = Ok T /\ shape T = (1500, 5)%nat /\
             columns T = columns df /\
             length (job_rows df) = 150%nat /\
             values T = flat_map job_rows (repeat df 10)).
Proof.
  unfold shape. intros Hshape Hrect Hnum. injection Hshape as Hrows Hcols.
  assert (Hlen : length (job_rows df) = 150%nat)
    by (rewrite job_rows_length; assumption).
  assert (Hall : length (flat_map job_rows (repeat df 10)) = 1500%nat)
    by (rewrite flat_map_repeat_length, Hlen; reflexivity).
  pose proof (common_schema_repeat df 10 Hrect) as Hs.
  unfold main, Serial.main. split; [apply submit_total; lia | ]. split.
  - intros out H.
    destruct (submit_outcome (repeat df 10) 8 out) as (rows & -> & Hp); [lia | exact H | ].
    eexists. split; [reflexivity | ].
    assert (Hw : Forall (fun r => length r = 5%nat) rows).
    { pose proof (common_schema_width _ _ Hs) as Hw0. rewrite Hcols in Hw0.
      eapply Permutation_Forall; [apply Permutation_sym, Hp | exact Hw0]. }
    assert (Hne : rows <> []).
    { intros ->. apply Permutation_length in Hp. rewrite Hall in Hp. discriminate. }
    rewrite (DataFrame_of_lists_uniform 5 rows Hne Hw). unfold shape. simpl.
    rewrite (Permutation_length Hp), Hall. reflexivity.
  - eexists. split; [ | split; [ | split; [ | split]]].
    + apply (serial_submit_schema (columns df)); [discriminate | exact Hs | ].
      apply numeric_repeat, Hnum.
    + unfold shape. cbn [values columns]. rewrite Hall, Hcols. reflexivity.
    + reflexivity.
    + exact Hlen.
    + reflexivity.
Qed.

(** C2 on a frame of 150 rows and 5 integer columns. *)
Lemma ten_jobs_give_1500_rows_witness :
  (exists T, main fisher_like 8 (Ok T)) /\
  (forall out, main fisher_like 8 out ->
     exists T, out = Ok T /\ shape T = (1500, 5)%nat) /\
  (exists T, Serial.main fisher_like = Ok T /\ shape T = (1500, 5)%nat /\
             columns T = columns fisher_like /\
             length (job_rows fisher_like) = 150%nat /\
             values T = flat_map job_rows (repeat fisher_like 10)).
Proof.
  apply (ten_jobs_give_1500_rows fisher_like); vm_compute; reflexivity.
Defined.

(** C7: the serial cell is a function of the job list.  Whatever the
    notebook's globals held before, a run leaves the same [results], the
    same exception if any, and on success the same [final]; a second run
    right after the first changes nothing. *)
Theorem serial_cell_is_deterministic (jobs : list DataFrame) (g g' : Serial.Globals) :
  Serial.run_cell jobs (fst (Serial.run_cell jobs g)) = Serial.run_cell jobs g /\
  snd (Serial.run_cell jobs g') = snd (Serial.run_cell jobs g) /\
  Serial.results (fst (Serial.run_cell jobs g'))
  = Serial.results (fst (Serial.run_cell jobs g)) /\
  (snd (Serial.run_cell jobs g) = None ->
   Serial.final (fst (Serial.run_cell jobs g'))
   = Serial.final (fst (Serial.run_cell jobs g)) /\
   exists T, Serial.final (fst (Serial.run_cell jobs g)) = Some T /\
             Serial.submit jobs = Ok T).
Proof.
  unfold Serial.submit, Serial.run_cell.
  destruct (Serial.for_append jobs []) as [rs [e | ]].
  - simpl. split; [reflexivity | split; [reflexivity | split; [reflexivity | discriminate]]].
  - destruct (Serial.concat rs) as [t | e]; simpl.
    + split; [reflexivity | split; [reflexivity | split; [reflexivity | ]]].
      intros _. split; [reflexivity | exists t; auto].
    + split; [reflexivity | split; [reflexivity | split; [reflexivity | discriminate]]].
Qed.

(** C7 on two jobs, from fresh globals and from globals left by another run. *)
Lemma serial_cell_is_deterministic_witness :
  Serial.run_cell two_jobs
    (fst (Serial.run_cell two_jobs (Serial.mkGlobals [] None)))
  = Serial.run_cell two_jobs (Serial.mkGlobals [] None) /\
  snd (Serial.run_cell two_jobs (Serial.mkGlobals [frame_str] (Some frame_big)))
  = snd (Serial.run_cell two_jobs (Serial.mkGlobals [] None)) /\
  Serial.results
    (fst (Serial.run_cell two_jobs (Serial.mkGlobals [frame_str] (Some frame_big))))
  = Serial.results (fst (Serial.run_cell two_jobs (Serial.mkGlobals [] None))) /\
  (snd (Serial.run_cell two_jobs (Serial.mkGlobals [] None)) = None ->
   Serial.final
     (fst (Serial.run_cell two_jobs (Serial.mkGlobals [frame_str] (Some frame_big))))
   = Serial.final (fst (Serial.run_cell two_jobs (Serial.mkGlobals [] None))) /\
   exists T,
     Serial.final (fst (Serial.run_cell two_jobs (Serial.mkGlobals [] None))) = Some T /\
     Serial.submit two_jobs = Ok T).
Proof.
  apply (serial_cell_is_deterministic two_jobs (Serial.mkGlobals [] None)
           (Serial.mkGlobals [frame_str] (Some frame_big))).
Defined.

(** C9, refuted as stated: for a job whose frame carries the default
    labels (here the one label [0]), the two cells return the same
    table, labels included. *)
Lemma unlabelled_frames_give_equal_tables :
  submit [frame_unlabelled] 8 (Ok frame_unlabelled) /\
  Serial.submit [frame_unlabelled] = Ok frame_unlabelled.
Proof.
  assert (Hrows : job_rows frame_unlabelled = values frame_unlabelled).
  { rewrite job_rows_settles; [ | reflexivity | vm_compute; reflexivity].
    vm_compute. reflexivity. }
  split.
  - pose proof (submit_joined [frame_unlabelled] 8 _ ltac:(lia)
                  (fifo_run 8 (tasks_from 0 [frame_unlabelled]) [] [] ltac:(lia))
                  ltac:(repeat split)) as H.
    cbn [results tasks_from flat_map args app] in H. rewrite Hrows in H. exact H.
  - rewrite (serial_submit_schema [Idx 0] [frame_unlabelled]);
      [ | discriminate | reflexivity | reflexivity].
    cbn [flat_map]. rewrite Hrows. reflexivity.
Qed.

(** C9, as the code has it: for a non-empty job list whose frames share
    the header [cols], the serial table carries that header; the parallel
    table carries the positions [0 .. n-1], [n] the width of the header,
    when it has rows, and no label when it has none; the rows agree up to
    order; and the tables differ whenever the header is not itself the
    list of the positions [0 .. n-1]. *)
Theorem labels_differ_between_cells
  (cols : list label) (jobs : list DataFrame) (k : nat) (Tp Ts : DataFrame) :
  jobs <> [] ->
  common_schema cols jobs = true ->
  submit jobs k (Ok Tp) ->
  Serial.submit jobs = Ok Ts ->
  columns Ts = cols /\
  columns Tp = default_labels (values Tp) (length cols) /\
  Permutation (values Tp) (values Ts) /\
  (cols <> map Idx (seq 0 (length cols)) -> Tp <> Ts).
Proof.
  intros Hne Hs Hp HTs.
  assert (Hk : (1 <= k)%nat) by (inversion Hp; assumption).
  destruct (submit_Ok_numeric jobs Ts HTs) as [_ Hn].
  rewrite (serial_submit_schema cols jobs Hne Hs Hn) in HTs. injection HTs as <-.
  destruct (submit_inv jobs k _ Hk Hp) as (s & Hsteps & Hj & E). injection E as ->.
  pose proof (joined_values cols jobs k s Hs Hsteps Hj) as Hv.
  pose proof (joined_results jobs k s Hsteps Hj) as Hperm.
  assert (Hlabels : columns (DataFrame_of_lists (results s))
                    = default_labels (values (DataFrame_of_lists (results s)))
                                     (length cols)).
  { assert (Hw : Forall (fun r => length r = length cols) (results s)).
    { eapply Permutation_Forall; [apply Permutation_sym, Hperm | ].
      apply common_schema_width, Hs. }
    rewrite Hv. revert Hw. destruct (results s) as [ | r rs]; [reflexivity | ].
    intros Hw.
    rewrite (DataFrame_of_lists_uniform (length cols) (r :: rs));
      [reflexivity | discriminate | exact Hw]. }
  split; [reflexivity | ]. split; [exact Hlabels | ]. split.
  - cbn [values]. rewrite Hv. exact Hperm.
  - intros Hcols E. apply Hcols.
    pose proof (f_equal columns E) as Ec. cbn [columns] in Ec.
    pose proof (f_equal values E) as Ev. cbn [values] in Ev.
    rewrite Hlabels, Ev in Ec. unfold default_labels in Ec.
    destruct (flat_map job_rows jobs); rewrite <- Ec; [reflexivity | ].
    now rewrite length_map, length_seq.
Qed.

(** C9 (as the code has it) on two jobs under the header [x]. *)
Lemma labels_differ_between_cells_witness :
  columns serial_table = [Name "x"%string] /\
  columns overtaken_table
  = default_labels (values overtaken_table) (length [Name "x"%string]) /\
  Permutation (values overtaken_table) (values serial_table) /\
  overtaken_table <> serial_table.
Proof.
  destruct (labels_differ_between_cells [Name "x"%string] two_jobs 2
              overtaken_table serial_table) as (H1 & H2 & H3 & H4).
  - discriminate.
  - reflexivity.
  - apply (submit_joined two_jobs 2 overtaken);
      [lia | exact overtaking_run | repeat split].
  - apply (serial_submit_schema [Name "x"%string] two_jobs);
      [discriminate | reflexivity | reflexivity].
  - split; [exact H1 | split; [exact H2 | split; [exact H3 | ]]].
    apply H4. discriminate.
Defined.

(** C8, refuted as stated: an integer cell of 2^53 + 1 comes back as the
    float 2^53, which is another value. *)
Lemma processData_rounds_large_integers :
  processData frame_big = Ok [[VFloat (S754_finite false 4503599627370496 1)]] /\
  int_value (S754_finite false 4503599627370496 1) = Some (2 ^ 53) /\
  ~ same_value (VInt (2 ^ 53 + 1)) (VFloat (S754_finite false 4503599627370496 1)).
Proof.
  split; [ | split].
  - unfold processData. rewrite loop_settles; [ | reflexivity | vm_compute; reflexivity].
    vm_compute. reflexivity.
  - reflexivity.
  - simpl. discriminate.
Qed.

(** C8, as the code has it: on a frame whose cells are binary64 floats or
    integers below 2^53 in magnitude, [processData] returns, in both cells,
    a table of the same shape in which every cell holds the value of the
    input cell: the same float, or the float of the integer. *)
Theorem processData_keeps_exact_values (df : DataFrame) :
  exact df = true ->
  exists rows,
    processData df = Ok rows /\
    Serial.processData df = Ok (mkDF (columns df) rows) /\
    Forall2 (Forall2 same_value) (values df) rows.
Proof.
  intros He. exists (map (map times_one) (values df)).
  unfold processData, Serial.processData. rewrite (loop_exact df He).
  repeat split. apply times_one_same_value, He.
Qed.

(** C8 (as the code has it) on a frame of 150 rows and 5 integer columns. *)
Lemma processData_keeps_exact_values_witness :
  exists rows,
    processData fisher_like = Ok rows /\
    Serial.processData fisher_like = Ok (mkDF (columns fisher_like) rows) /\
    Forall2 (Forall2 same_value) (values fisher_like) rows.
Proof. apply (processData_keeps_exact_values fisher_like). vm_compute. reflexivity. Defined.

End TwoCells.

(* ================================================================== *)
(** * Further properties of the pool                                   *)
(* ================================================================== *)

Section PoolDiscipline.

Import Parallel.

(** The position of a task in the numbered task list is its job number. *)
Lemma tasks_from_nth (i j : nat) (jobs : list DataFrame) (t : Task) :
  nth_error (tasks_from i jobs) j = Some t ->
  job t = (i + j)%nat /\ nth_error jobs j = Some (args t).
Proof.
  revert i j. induction jobs as [ | df jobs IH]; intros i j; simpl.
  - destruct j; discriminate.
  - destruct j as [ | j]; simpl.
    + intros [= <-]. simpl. split; [lia | reflexivity].
    + intros H. destruct (IH (S i) j H) as [Hj Ha]. split; [lia | exact Ha].
Qed.

Lemma tasks_from_length (i : nat) (jobs : list DataFrame) :
  length (tasks_from i jobs) = length jobs.
Proof. rewrite <- (length_map job), tasks_from_job. apply length_seq. Qed.

Lemma dispatch_invariant_steps (jobs : list DataFrame) (k : nat) (s : State) :
  steps k (init jobs) s -> dispatch_invariant jobs k s.
Proof.
  remember (init jobs) as s0 eqn:E. induction 1 as [s | s1 s2 s3 _ IH Hstep].
  - subst. split; [simpl; lia | ]. exists []. split; [reflexivity | constructor].
  - destruct (IH E) as (Hcap & started & Htasks & Hperm). clear IH.
    destruct Hstep; unfold dispatch_invariant;
      cbn [results completed running taskqueue todo] in *.
    + split; [exact Hcap | ]. exists started. split; [ | exact Hperm].
      rewrite Htasks, <- app_assoc. reflexivity.
    + split; [rewrite length_app; simpl; lia | ].
      exists (started ++ [t]). split.
      * rewrite Htasks, <- app_assoc. reflexivity.
      * rewrite app_assoc. apply Permutation_app_tail, Hperm.
    + split; [rewrite length_app in *; simpl in Hcap; lia | ].
      exists started. split; [exact Htasks | ].
      rewrite Hperm, <- !app_assoc. apply Permutation_app_head.
      cbn [app]. apply Permutation_sym, Permutation_middle.
Qed.

(** X1: a pool of [k] processes never runs more than [k] tasks at a time. *)
Theorem pool_never_exceeds_its_size (jobs : list DataFrame) (k : nat) (s : State) :
  steps k (init jobs) s -> (length (running s) <= k)%nat.
Proof. intros H. apply (dispatch_invariant_steps jobs k s H). Qed.

(** X1 on the run in which job 1 overtakes job 0. *)
Lemma pool_never_exceeds_its_size_witness :
  (length (running overtaken) <= 2)%nat.
Proof. apply (pool_never_exceeds_its_size two_jobs 2 overtaken overtaking_run). Defined.

(** X2: workers take tasks in submission order.  In every state of a run
    the tasks not yet taken are a suffix of the submission order (the
    queue, then the part of the loop still to run), and the tasks taken
    before them are exactly the running and the handled ones. *)
Theorem tasks_are_taken_in_submission_order
  (jobs : list DataFrame) (k : nat) (s : State) :
  steps k (init jobs) s ->
  exists started,
    tasks_from 0 jobs = started ++ taskqueue s ++ todo s /\
    Permutation started (completed s ++ running s).
Proof. intros H. apply (dispatch_invariant_steps jobs k s H). Qed.

(** X2 on the run in which job 1 overtakes job 0. *)
Lemma tasks_are_taken_in_submission_order_witness :
  exists started,
    tasks_from 0 two_jobs = started ++ taskqueue overtaken ++ todo overtaken /\
    Permutation started (completed overtaken ++ running overtaken).
Proof.
  apply (tasks_are_taken_in_submission_order two_jobs 2 overtaken overtaking_run).
Defined.

Lemma prefix_job_bound (jobs : list DataFrame) (started rest : list Task) (t : Task) :
  tasks_from 0 jobs = started ++ rest -> In t started ->
  (job t < length started)%nat.
Proof.
  intros Htasks Hin. apply In_nth_error in Hin as (j & Hj).
  assert (Hlt : (j < length started)%nat)
    by (apply nth_error_Some; congruence).
  assert (Hn : nth_error (tasks_from 0 jobs) j = Some t)
    by (rewrite Htasks, nth_error_app1; assumption).
  apply tasks_from_nth in Hn as [-> _]. exact Hlt.
Qed.

(** X3: a task overtakes at most [k - 1] tasks submitted before it: the
    task handled at position [i] (from 0) has a job number below [i + k]. *)
Theorem overtaking_is_bounded
  (jobs : list DataFrame) (k : nat) (s : State) (i : nat) (t : Task) :
  steps k (init jobs) s ->
  nth_error (completed s) i = Some t ->
  (job t < i + k)%nat.
Proof.
  intros Hsteps. revert i t.
  remember (init jobs) as s0 eqn:E.
  induction Hsteps as [s | s1 s2 s3 Hsteps IH Hstep]; intros i t.
  - subst. simpl. destruct i; discriminate.
  - specialize (IH E). subst s1.
    destruct (dispatch_invariant_steps jobs k s2 Hsteps)
      as (Hcap & started & Htasks & Hperm).
    destruct Hstep; cbn [results completed running taskqueue todo] in *;
      try apply IH.
    destruct (Nat.lt_ge_cases i (length done)) as [Hlt | Hge].
    + rewrite nth_error_app1 by exact Hlt. apply IH.
    + rewrite nth_error_app2 by exact Hge.
      destruct (i - length done)%nat as [ | m] eqn:Em; simpl;
        [ | destruct m; discriminate].
      intros [= <-].
      assert (Hin : In t0 started).
      { eapply Permutation_in; [apply Permutation_sym, Hperm | ].
        apply in_or_app. right. apply in_or_app. right. left. reflexivity. }
      pose proof (prefix_job_bound jobs started _ t0 Htasks Hin) as Hb.
      rewrite (Permutation_length Hperm), length_app in Hb. lia.
Qed.

(** X3 on the run in which job 1 overtakes job 0: job 1 is handled first. *)
Lemma overtaking_is_bounded_witness :
  nth_error (completed overtaken) 0 = Some (mkTask 1 frame_float) /\
  (job (mkTask 1 frame_float) < 0 + 2)%nat.
Proof.
  split; [reflexivity | ].
  apply (overtaking_is_bounded two_jobs 2 overtaken 0 _ overtaking_run).
  reflexivity.
Defined.

End PoolDiscipline.

Section PoolRuns.

Import Parallel.

(** X4: every step of the pool pays off exactly one unit of the pending
    work, so a run of [n] steps from the start leaves [3 * jobs - n] units;
    a run cannot exceed three steps per job, and a run that reaches the
    joined state has made exactly three steps per job. *)
Theorem every_run_is_three_steps_per_job
  (jobs : list DataFrame) (k n : nat) (s : State) :
  steps_in k n (init jobs) s ->
  (n + pending_work s = 3 * length jobs)%nat /\
  (joined s -> n = (3 * length jobs)%nat).
Proof.
  intros H.
  assert (Hn : (n + pending_work s = 3 * length jobs)%nat).
  { remember (init jobs) as s0 eqn:E. induction H as [s | n s1 s2 s3 _ IH Hstep].
    - subst. unfold pending_work, init. cbn [todo taskqueue running length].
      rewrite tasks_from_length. lia.
    - specialize (IH E). destruct Hstep; unfold pending_work in *;
        cbn [todo taskqueue running] in *;
        rewrite ?length_app in *; cbn [length] in *; lia. }
  split; [exact Hn | ].
  intros (Ht & Hq & Hr). unfold pending_work in Hn.
  rewrite Ht, Hq, Hr in Hn. simpl in Hn. lia.
Qed.

Lemma overtaking_run_in : steps_in 2 6 (init two_jobs) overtaken.
Proof.
  eapply steps_in_S; [eapply steps_in_S; [eapply steps_in_S; [eapply steps_in_S;
    [eapply steps_in_S; [eapply steps_in_S; [apply steps_in_O | ] | ] | ] | ] | ] | ].
  - apply (step_apply_async 2 (mkTask 0 frame_int) [mkTask 1 frame_float] [] [] [] []).
  - apply (step_apply_async 2 (mkTask 1 frame_float) [] [mkTask 0 frame_int] [] [] []).
  - apply (step_take 2 (mkTask 0 frame_int) [] [mkTask 1 frame_float] [] [] []).
    simpl. lia.
  - apply (step_take 2 (mkTask 1 frame_float) [] [] [mkTask 0 frame_int] [] []).
    simpl. lia.
  - apply (step_report 2 (mkTask 1 frame_float) [] [] [mkTask 0 frame_int] [] [] []).
  - apply (step_report 2 (mkTask 0 frame_int) [] [] [] []
             (set_result (processData frame_float) []) [mkTask 1 frame_float]).
Qed.

(** X4 on the six steps of the run in which job 1 overtakes job 0. *)
Lemma every_run_is_three_steps_per_job_witness :
  (6 + pending_work overtaken = 3 * length two_jobs)%nat /\
  (joined overtaken -> 6%nat = (3 * length two_jobs)%nat).
Proof.
  apply (every_run_is_three_steps_per_job two_jobs 2 6 overtaken overtaking_run_in).
Defined.

(** The running tasks can always report, one after the other. *)
Lemma drain_running (k : nat) (td q run : list Task) (res : list Row) (done : list Task) :
  exists res', steps k (mkState td q run res done)
                       (mkState td q [] res' (done ++ run)).
Proof.
  revert res done. induction run as [ | t run IH]; intros res done.
  - exists res. rewrite app_nil_r. apply steps_refl.
  - destruct (IH (set_result (processData (args t)) res) (done ++ [t])) as (res' & Hs).
    exists res'. rewrite <- app_assoc in Hs. cbn [app] in Hs.
    eapply steps_trans; [ | exact Hs].
    apply steps_one. apply (step_report k t td q [] run res done).
Qed.

(** With a worker at hand the queue can always be emptied. *)
Lemma drain_queue (k : nat) (td q : list Task) (res : list Row) (done : list Task) :
  (1 <= k)%nat ->
  exists res', steps k (mkState td q [] res done)
                       (mkState td [] [] res' (done ++ q)).
Proof.
  intros Hk. revert res done. induction q as [ | t q IH]; intros res done.
  - exists res. rewrite app_nil_r. apply steps_refl.
  - destruct (IH (set_result (processData (args t)) res) (done ++ [t])) as (res' & Hs).
    exists res'. rewrite <- app_assoc in Hs. cbn [app] in Hs.
    eapply steps_trans; [ | exact Hs].
    eapply steps_trans;
      [apply steps_one, (step_take k t td q [] res done); cbn [length]; lia | ].
    apply steps_one. apply (step_report k t td q [] [] res done).
Qed.

(** X5: the pool cannot get stuck.  From every state, reached or not, a
    pool of at least one worker can go on to a state in which all tasks
    have been handled, so [pool.join()] can always return; the tasks left
    are handled in the order running, queued, not yet submitted. *)
Theorem pool_can_always_finish (k : nat) (s : State) :
  (1 <= k)%nat ->
  exists s',
    steps k s s' /\ joined s' /\
    completed s' = completed s ++ running s ++ taskqueue s ++ todo s.
Proof.
  intros Hk. destruct s as [td q run res done].
  destruct (drain_running k td q run res done) as (res1 & H1).
  destruct (drain_queue k td q res1 (done ++ run) Hk) as (res2 & H2).
  pose proof (fifo_run k td res2 ((done ++ run) ++ q) Hk) as H3.
  eexists. split; [ | split].
  - eapply steps_trans; [exact H1 | ]. eapply steps_trans; [exact H2 | exact H3].
  - repeat split.
  - cbn [completed running taskqueue todo]. now rewrite <- !app_assoc.
Qed.

(** X5 from the start of two jobs on eight workers. *)
Lemma pool_can_always_finish_witness :
  exists s',
    steps 8 (init two_jobs) s' /\ joined s' /\
    completed s'
    = completed (init two_jobs) ++ running (init two_jobs)
      ++ taskqueue (init two_jobs) ++ todo (init two_jobs).
Proof. apply (pool_can_always_finish 8 (init two_jobs)). lia. Defined.

(** X6: every job is handled at most once, and by the task that carries
    its own frame: in every state of a run the job numbers of the handled
    tasks are distinct, and the task of job [j] carries the [j]-th frame
    of the job list. *)
Theorem no_job_is_handled_twice (jobs : list DataFrame) (k : nat) (s : State) :
  steps k (init jobs) s ->
  NoDup (map job (completed s)) /\
  forall t, In t (completed s) -> nth_error jobs (job t) = Some (args t).
Proof.
  intros H. destruct (invariant_steps jobs k s H) as [_ Hperm]. split.
  - assert (Hnd : NoDup (map job (completed s ++ running s ++ taskqueue s ++ todo s))).
    { eapply Permutation_NoDup;
        [apply Permutation_sym, Permutation_map, Hperm | ].
      rewrite tasks_from_job. apply seq_NoDup. }
    rewrite map_app in Hnd. apply NoDup_app_remove_r in Hnd. exact Hnd.
  - intros t Hin.
    assert (Hin' : In t (tasks_from 0 jobs)).
    { eapply Permutation_in; [exact Hperm | ]. apply in_or_app. left. exact Hin. }
    apply In_nth_error in Hin' as (j & Hj).
    destruct (tasks_from_nth 0 j jobs t Hj) as [Hjob Hargs].
    simpl in Hjob. now rewrite Hjob.
Qed.

(** X6 on the run in which job 1 overtakes job 0. *)
Lemma no_job_is_handled_twice_witness :
  NoDup (map job (completed overtaken)) /\
  forall t, In t (completed overtaken) -> nth_error two_jobs (job t) = Some (args t).
Proof. apply (no_job_is_handled_twice two_jobs 2 overtaken overtaking_run). Defined.

End PoolRuns.

Section SingleWorker.

Import Parallel.

Lemma single_worker_invariant (jobs : list DataFrame) (s : State) :
  steps 1 (init jobs) s ->
  tasks_from 0 jobs = completed s ++ running s ++ taskqueue s ++ todo s.
Proof.
  intros Hsteps. remember (init jobs) as s0 eqn:E.
  induction Hsteps as [s | s1 s2 s3 Hsteps IH Hstep].
  - subst. reflexivity.
  - specialize (IH E). subst s1.
    pose proof (dispatch_invariant_steps jobs 1 s2 Hsteps) as [Hcap _].
    destruct Hstep; cbn [results completed running taskqueue todo] in *.
    + rewrite IH, <- app_assoc. reflexivity.
    + match goal with
      | Hlt : (length ?r < 1)%nat |- _ => destruct r; [ | simpl in Hlt; lia]
      end.
      exact IH.
    + destruct run1 as [ | r run1].
      * destruct run2 as [ | r run2]; [ | simpl in Hcap; lia].
        rewrite IH. cbn [app]. rewrite <- app_assoc. reflexivity.
      * simpl in Hcap. rewrite length_app in Hcap. simpl in Hcap. lia.
Qed.

(** X7: with a single worker the parallel cell is deterministic and keeps
    the submission order: the only table [submit] can return is the one
    built from the rows of job 0, then job 1, and so on; under a common
    schema these are the rows of the serial table, in the same order. *)
Theorem single_worker_keeps_submission_order (jobs : list DataFrame) (T : DataFrame) :
  submit jobs 1 (Ok T) ->
  T = DataFrame_of_lists (flat_map job_rows jobs) /\
  forall cols Ts, common_schema cols jobs = true ->
    Serial.submit jobs = Ok Ts -> values T = values Ts.
Proof.
  intros H. destruct (submit_inv jobs 1 _ (le_n 1) H) as (s & Hsteps & Hj & E).
  injection E as ->.
  assert (Hres : results s = flat_map job_rows jobs).
  { destruct (invariant_steps jobs 1 s Hsteps) as [Hres _].
    pose proof (single_worker_invariant jobs s Hsteps) as Htasks.
    destruct Hj as (Ht & Hq & Hr). rewrite Ht, Hq, Hr, !app_nil_r in Htasks.
    rewrite Hres, <- Htasks. apply flat_map_tasks. }
  rewrite Hres. split; [reflexivity | ].
  intros cols Ts Hs HTs.
  destruct (submit_Ok_numeric jobs Ts HTs) as [Hne Hn].
  rewrite (serial_submit_schema cols jobs Hne Hs Hn) in HTs. injection HTs as <-.
  cbn [values]. apply (DataFrame_of_lists_values (length cols)).
  apply common_schema_width, Hs.
Qed.

Lemma single_worker_run :
  submit two_jobs 1
    (Ok (DataFrame_of_lists
           ([] ++ flat_map (fun t => job_rows (args t)) (tasks_from 0 two_jobs)))).
Proof.
  apply (submit_joined two_jobs 1
           (mkState [] [] []
              ([] ++ flat_map (fun t => job_rows (args t)) (tasks_from 0 two_jobs))
              ([] ++ tasks_from 0 two_jobs)));
    [lia | apply (fifo_run 1 (tasks_from 0 two_jobs) [] []); lia | repeat split].
Qed.

(** X7 on two jobs. *)
Lemma single_worker_keeps_submission_order_witness :
  DataFrame_of_lists
    ([] ++ flat_map (fun t => job_rows (args t)) (tasks_from 0 two_jobs))
  = DataFrame_of_lists (flat_map job_rows two_jobs) /\
  forall cols Ts, common_schema cols two_jobs = true ->
    Serial.submit two_jobs = Ok Ts ->
    values (DataFrame_of_lists
              ([] ++ flat_map (fun t => job_rows (args t)) (tasks_from 0 two_jobs)))
    = values Ts.
Proof.
  apply (single_worker_keeps_submission_order two_jobs _ single_worker_run).
Defined.

End SingleWorker.

(* ================================================================== *)
(** * Further properties of the transformation and of the frames       *)
(* ================================================================== *)

Section FramesAndCells.

(** X8: the outcome of [processData] in both cells.  On a frame whose
    cells can all be multiplied by a float it returns a table with the
    labels, the number of rows and the row lengths of the input, in which
    every cell is a float (an integer column comes back as floats).  On
    any other frame it raises, in both cells, the error of the first cell
    that cannot be multiplied, columns taken from left to right and each
    column from its first row down: [TypeError] for a string cell,
    [OverflowError] for an integer too large for a float. *)
Theorem processData_outcome (df : DataFrame) :
  (numeric df = true ->
   exists rows,
     Parallel.processData df = Ok rows /\
     Serial.processData df = Ok (mkDF (columns df) rows) /\
     map (@length cell) rows = map (@length cell) (values df) /\
     forallb (forallb is_float) rows = true) /\
  (numeric df = false ->
   exists e,
     first_error one (values df) = Some e /\
     (e = TypeError \/ e = OverflowError) /\
     Parallel.processData df = Raise e /\
     Serial.processData df = Raise e).
Proof.
  split.
  - intros Hn. destruct (loop_floats df Hn) as (vs & Hl & Hlen & Hfl).
    exists vs. unfold Parallel.processData, Serial.processData. rewrite Hl.
    repeat split; assumption.
  - intros Hn. unfold numeric in Hn.
    destruct (first_error one (values df)) as [e | ] eqn:E.
    + exists e. unfold Parallel.processData, Serial.processData.
      rewrite (loop_first_error df e E).
      repeat split. apply (first_error_kinds _ _ _ E).
    + exfalso. apply (first_error_not_numeric _ Hn E).
Qed.

(** X8 on the frame of 150 rows, on the frame with a string cell, which
    raises [TypeError], and on the frame that holds 2^1024 before a
    string, which raises [OverflowError]. *)
Lemma processData_outcome_witness :
  (exists rows,
     Parallel.processData fisher_like = Ok rows /\
     Serial.processData fisher_like = Ok (mkDF (columns fisher_like) rows) /\
     map (@length cell) rows = map (@length cell) (values fisher_like) /\
     forallb (forallb is_float) rows = true) /\
  (Parallel.processData frame_str = Raise TypeError /\
   Serial.processData frame_str = Raise TypeError) /\
  (Parallel.processData frame_huge = Raise OverflowError /\
   Serial.processData frame_huge = Raise OverflowError).
Proof.
  split; [ | split].
  - apply (proj1 (processData_outcome fisher_like)). vm_compute. reflexivity.
  - destruct (proj2 (processData_outcome frame_str) eq_refl) as (e & He & _ & Hp & Hs).
    vm_compute in He. injection He as <-. split; assumption.
  - destruct (proj2 (processData_outcome frame_huge) eq_refl) as (e & He & _ & Hp & Hs).
    vm_compute in He. injection He as <-. split; assumption.
Defined.

Lemma list_max_In (n : nat) (l : list nat) : In n l -> (n <= list_max l)%nat.
Proof.
  intros Hin. pose proof (proj1 (list_max_le l (list_max l)) (le_n _)) as H.
  rewrite Forall_forall in H. apply H, Hin.
Qed.

Lemma pad_length (n : nat) (r : Row) : (length r <= n)%nat -> length (pad n r) = n.
Proof. intros H. unfold pad. rewrite length_app, repeat_length. lia. Qed.

(** X9: [pd.DataFrame(results)] always gives a rectangular table.  It has
    one row per list and as many columns as the longest list; every list
    is kept as the beginning of its row, and the rest of the row is NaN. *)
Theorem frame_of_lists_is_rectangular (rows : list Row) :
  rectangular (DataFrame_of_lists rows) = true /\
  length (columns (DataFrame_of_lists rows)) = list_max (map (@length cell) rows) /\
  length (values (DataFrame_of_lists rows)) = length rows /\
  Forall2 (fun r r' => firstn (length r) r' = r /\
                       Forall (fun c => c = VFloat nan) (skipn (length r) r'))
          rows (values (DataFrame_of_lists rows)).
Proof.
  unfold DataFrame_of_lists, rectangular. cbn [columns values].
  set (n := list_max (map (@length cell) rows)).
  assert (Hle : forall r, In r rows -> (length r <= n)%nat).
  { intros r Hr. apply list_max_In, in_map, Hr. }
  split; [ | split; [ | split]].
  - apply forallb_forall. intros r' Hr'.
    apply in_map_iff in Hr' as (r & <- & Hr).
    rewrite length_map, length_seq. apply Nat.eqb_eq, pad_length, Hle, Hr.
  - now rewrite length_map, length_seq.
  - apply length_map.
  - clear Hle. clearbody n.
    induction rows as [ | r rows IH]; simpl; constructor; [ | exact IH].
    unfold pad. split.
    + rewrite firstn_app, Nat.sub_diag, firstn_all. simpl. apply app_nil_r.
    + rewrite skipn_app, Nat.sub_diag, skipn_all. simpl.
      apply Forall_forall. intros c Hc. apply repeat_spec in Hc. exact Hc.
Qed.

End FramesAndCells.

Section SerialExtras.

Import Serial.

Lemma reindex_length (cols : list label) (o : DataFrame) :
  length (reindex cols o) = length (values o).
Proof. unfold reindex. destruct (same_labels (columns o) cols); [reflexivity | apply length_map]. Qed.

Lemma reindex_width (cols : list label) (o : DataFrame) (r : Row) :
  rectangular o = true -> In r (reindex cols o) -> length r = length cols.
Proof.
  unfold reindex, rectangular. intros Hrect Hin.
  destruct (same_labels (columns o) cols) eqn:E.
  - apply same_labels_eq in E. subst cols.
    rewrite forallb_forall in Hrect. apply Nat.eqb_eq, Hrect, Hin.
  - apply in_map_iff in Hin as (r0 & <- & _). apply length_map.
Qed.

Lemma rectangular_astype (na : nat -> bool) (cols : list label) (rows : list Row) :
  rectangular (mkDF cols rows) = true ->
  rectangular (mkDF cols (astype na rows)) = true.
Proof.
  unfold rectangular. cbn [values columns]. intros H.
  rewrite forallb_forall in *. intros r Hr.
  assert (Hl : In (length r) (map (@length cell) (astype na rows)))
    by (apply in_map, Hr).
  rewrite astype_widths in Hl. apply in_map_iff in Hl as (r0 & <- & Hr0).
  apply H, Hr0.
Qed.

(** X10: [pd.concat] of a non-empty list.  It raises [InvalidIndexError]
    when the frames do not all carry the same labels and one of them
    carries a label twice.  In every other case it returns a table: under
    the labels of the first frame when all frames carry them, else under
    the union of the labels in order of first appearance; the table keeps
    every row (its row count is the sum of the row counts of the frames)
    and is rectangular when the frames are. *)
Theorem concat_keeps_every_row (objs : list DataFrame) :
  objs <> [] ->
  (same_columns objs = false ->
   forallb (fun o => unique (columns o)) objs = false ->
   concat objs = Raise InvalidIndexError) /\
  (same_columns objs = true \/ forallb (fun o => unique (columns o)) objs = true ->
   exists T,
     concat objs = Ok T /\
     columns T = (if same_columns objs
                  then match objs with o :: _ => columns o | [] => [] end
                  else union_columns objs) /\
     length (values T) = list_sum (map (fun o => length (values o)) objs) /\
     (forallb rectangular objs = true -> rectangular T = true)).
Proof.
  intros Hne. destruct objs as [ | o objs]; [contradiction | ].
  unfold concat. split.
  - intros -> ->. reflexivity.
  - intros Hor. destruct (same_columns (o :: objs)) eqn:Es.
    + eexists. split; [reflexivity | ]. cbn [values columns].
      split; [reflexivity | ]. split.
      * rewrite astype_length, length_flat_map. f_equal. apply map_ext.
        intros a. apply astype_length.
      * intros Hrect. apply rectangular_astype. unfold rectangular.
        cbn [values columns]. apply forallb_forall. intros r Hr.
        apply in_flat_map in Hr as (a & Ha & Hr).
        unfold same_columns in Es. rewrite forallb_forall in Es, Hrect.
        rewrite <- (same_labels_eq _ _ (Es a Ha)).
        assert (Ha' : rectangular (mkDF (columns a) (astype no_na (values a))) = true).
        { apply rectangular_astype. specialize (Hrect a Ha). destruct a. exact Hrect. }
        unfold rectangular in Ha'. cbn [values columns] in Ha'.
        rewrite forallb_forall in Ha'. apply Ha', Hr.
    + destruct Hor as [Hor | Hu]; [discriminate | ]. rewrite Hu.
      eexists. split; [reflexivity | ]. cbn [values columns].
      split; [reflexivity | ]. split.
      * rewrite astype_length, length_flat_map. f_equal. apply map_ext.
        intros a. rewrite reindex_length. apply astype_length.
      * intros Hrect. apply rectangular_astype. unfold rectangular.
        cbn [values columns]. apply forallb_forall. intros r Hr.
        apply Nat.eqb_eq. apply in_flat_map in Hr as (a & Ha & Hr).
        apply (reindex_width _ _ r) in Hr; [exact Hr | ].
        apply rectangular_astype. rewrite forallb_forall in Hrect.
        specialize (Hrect a Ha). destruct a. exact Hrect.
Qed.

(** X10 on the two sample frames, on two frames that share one column
    only, and on a list with a frame that carries a label twice. *)
Lemma concat_keeps_every_row_witness :
  (exists T,
     concat two_jobs = Ok T /\
     columns T = [Name "x"] /\
     length (values T) = 2%nat /\
     (forallb rectangular two_jobs = true -> rectangular T = true)) /\
  concat [frame_ab; frame_ac]
  = Ok (mkDF [Name "a"; Name "b"; Name "c"]
          [[VFloat (float_of_int 1); VFloat (float_of_int 2); VFloat nan];
           [VFloat (S754_finite false 6755399441055744 (-52)); VFloat nan; VStr "x"]]) /\
  concat [frame_ab; frame_aa] = Raise InvalidIndexError.
Proof.
  split; [ | split].
  - apply (proj2 (concat_keeps_every_row two_jobs ltac:(discriminate))).
    left. reflexivity.
  - vm_compute. reflexivity.
  - apply (proj1 (concat_keeps_every_row [frame_ab; frame_aa] ltac:(discriminate)));
      reflexivity.
Defined.

(** The frame the serial [processData] returns for a numeric frame. *)
Lemma serial_processData_numeric (df : DataFrame) :
  numeric df = true ->
  processData df = Ok (mkDF (columns df) (Parallel.job_rows df)).
Proof.
  intros Hn. destruct (processData_numeric df Hn) as (rows & Hp & Hl & _).
  unfold processData, Parallel.job_rows. rewrite Hp. exact Hl.
Qed.

Lemma for_append_app (pre rest rs : list DataFrame) :
  forallb numeric pre = true ->
  for_append (pre ++ rest) rs
  = for_append rest
      (rs ++ map (fun df => mkDF (columns df) (Parallel.job_rows df)) pre).
Proof.
  revert rs. induction pre as [ | df pre IH]; intros rs H.
  - simpl. now rewrite app_nil_r.
  - simpl in H. apply andb_true_iff in H as [Hn H].
    cbn [app for_append map]. rewrite (serial_processData_numeric df Hn), (IH _ H).
    now rewrite <- app_assoc.
Qed.

(** X11: a job that raises stops the serial cell where it stands.  When
    the jobs before it are numeric, [results] is left with their frames,
    in order, the jobs after it are never run, the cell ends with the
    error of the first cell of the job that cannot be multiplied
    ([TypeError] for a string cell, [OverflowError] for an integer too
    large for a float), and [final] still holds what it held before the
    run. *)
Theorem failing_job_stops_the_serial_cell
  (pre post : list DataFrame) (bad : DataFrame) (g : Globals) :
  forallb numeric pre = true ->
  numeric bad = false ->
  exists e,
    first_error one (values bad) = Some e /\
    (e = TypeError \/ e = OverflowError) /\
    run_cell (pre ++ bad :: post) g
    = (mkGlobals (map (fun df => mkDF (columns df) (Parallel.job_rows df)) pre)
                 (final g),
       Some e).
Proof.
  intros Hpre Hbad. unfold numeric in Hbad.
  destruct (first_error one (values bad)) as [e | ] eqn:E;
    [ | exfalso; apply (first_error_not_numeric _ Hbad E)].
  exists e. split; [reflexivity | ].
  split; [apply (first_error_kinds _ _ _ E) | ].
  unfold run_cell.
  rewrite (for_append_app pre (bad :: post) [] Hpre). cbn [for_append app].
  unfold processData. rewrite (loop_first_error bad e E). reflexivity.
Qed.

(** X11 on the ten jobs of which the fifth raises, after a run that left
    a table in [final]: the cell ends with [TypeError]. *)
Lemma failing_job_stops_the_serial_cell_witness :
  run_cell (repeat frame_int 4 ++ frame_str :: repeat frame_int 5)
           (mkGlobals [] (Some frame_float))
  = (mkGlobals
       (map (fun df => mkDF (columns df) (Parallel.job_rows df)) (repeat frame_int 4))
       (final (mkGlobals [] (Some frame_float))),
     Some TypeError).
Proof.
  destruct (failing_job_stops_the_serial_cell (repeat frame_int 4) (repeat frame_int 5)
              frame_str (mkGlobals [] (Some frame_float)) eq_refl eq_refl)
    as (e & He & _ & Hrun).
  vm_compute in He. injection He as <-. exact Hrun.
Defined.

(** X12: the serial cell on any non-empty list of numeric jobs that share
    a schema: [results] receives one frame per job, in job order, each
    under the header, and [final] is the table of the rows of job 0, then
    job 1, and so on, under the header; it is rectangular. *)
Theorem serial_cell_keeps_submission_order
  (cols : list label) (jobs : list DataFrame) (g : Globals) :
  jobs <> [] ->
  common_schema cols jobs = true ->
  forallb numeric jobs = true ->
  run_cell jobs g
  = (mkGlobals (map (fun df => mkDF cols (Parallel.job_rows df)) jobs)
               (Some (mkDF cols (flat_map Parallel.job_rows jobs))),
     None) /\
  submit jobs = Ok (mkDF cols (flat_map Parallel.job_rows jobs)) /\
  rectangular (mkDF cols (flat_map Parallel.job_rows jobs)) = true.
Proof.
  intros Hne Hs Hn.
  pose proof (serial_submit_schema cols jobs Hne Hs Hn) as Hsub.
  split; [ | split; [exact Hsub | ]].
  - unfold run_cell.
    rewrite <- (app_nil_r jobs) at 1. rewrite (for_append_app jobs [] [] Hn).
    cbn [for_append app].
    assert (Hmap : map (fun df => mkDF (columns df) (Parallel.job_rows df)) jobs
                   = map (fun df => mkDF cols (Parallel.job_rows df)) jobs).
    { apply map_ext_in. intros df Hin.
      now destruct (common_schema_In cols jobs df Hs Hin) as [-> _]. }
    rewrite Hmap. rewrite (concat_same_columns cols).
    + do 3 f_equal. rewrite !flat_map_concat_map, map_map. reflexivity.
    + destruct jobs; [contradiction | discriminate].
    + apply Forall_map, Forall_forall. intros df _. reflexivity.
    + apply Forall_map, Forall_forall. intros df _. apply job_rows_floats.
  - unfold rectangular. cbn [values columns]. apply forallb_forall.
    intros r Hr. apply Nat.eqb_eq.
    pose proof (common_schema_width cols jobs Hs) as Hw.
    rewrite Forall_forall in Hw. apply Hw, Hr.
Qed.

(** X12 on the two sample jobs. *)
Lemma serial_cell_keeps_submission_order_witness :
  run_cell two_jobs (mkGlobals [] None)
  = (mkGlobals (map (fun df => mkDF [Name "x"%string] (Parallel.job_rows df)) two_jobs)
               (Some (mkDF [Name "x"%string] (flat_map Parallel.job_rows two_jobs))),
     None) /\
  submit two_jobs = Ok (mkDF [Name "x"%string] (flat_map Parallel.job_rows two_jobs)) /\
  rectangular (mkDF [Name "x"%string] (flat_map Parallel.job_rows two_jobs)) = true.
Proof.
  apply (serial_cell_keeps_submission_order [Name "x"%string] two_jobs
           (mkGlobals [] None)); [discriminate | reflexivity | reflexivity].
Defined.

End SerialExtras.

(* ================================================================== *)
(** * The state aggregation query                                      *)
(* ================================================================== *)

Section Aggregation.

Import H1B.

Variable A : Arith.

Lemma insert_key_In (x s : string) (keys : list string) :
  In x (insert_key s keys) <-> x = s \/ In x keys.
Proof.
  induction keys as [ | k keys IH]; simpl.
  - intuition.
  - destruct (String.compare s k) eqn:E; simpl.
    + apply String.compare_eq_iff in E. subst k. intuition.
    + intuition.
    + rewrite IH. intuition.
Qed.

(** The group keys are the state codes that occur. *)
Lemma group_keys_In (s : string) (data : list (Rated A)) :
  In s (group_keys A data) <-> exists r, In r data /\ state_code A r = Some s.
Proof.
  induction data as [ | r data IH]; simpl.
  - split; [contradiction | intros (r & [] & _)].
  - destruct (state_code A r) as [c | ] eqn:E.
    + rewrite insert_key_In, IH. split.
      * intros [-> | (r' & Hin & Hr')]; [exists r; auto | exists r'; auto].
      * intros (r' & [<- | Hin] & Hr'); [left; congruence | right; exists r'; auto].
    + rewrite IH. split.
      * intros (r' & Hin & Hr'). exists r'; auto.
      * intros (r' & [<- | Hin] & Hr'); [congruence | exists r'; auto].
Qed.

Lemma has_code_spec (s : string) (r : Rated A) :
  has_code A s r = true <-> state_code A r = Some s.
Proof.
  unfold has_code. destruct (state_code A r) as [c | ].
  - rewrite String.eqb_eq. split; congruence.
  - split; discriminate.
Qed.

(** A state with a filing has a row in the grouped table, built from the
    filings of that state in their order. *)
Lemma state_row_found (s : string) (data : list (Rated A)) :
  filter (has_code A s) data <> [] ->
  state_row s (groupby_sum A data)
  = Some (mkStateRow A s
            (group_sum A (map (census A) (filter (has_code A s) data)))
            (group_sum A (map (job_per_10000 A) (filter (has_code A s) data)))).
Proof.
  intros Hne. assert (Hin : In s (group_keys A data)).
  { apply group_keys_In. destruct (filter (has_code A s) data) as [ | r l] eqn:E;
      [contradiction | ].
    assert (Hr : In r (filter (has_code A s) data)) by (rewrite E; left; reflexivity).
    apply filter_In in Hr as [Hr1 Hr2]. exists r. split; [exact Hr1 | ].
    apply has_code_spec, Hr2. }
  unfold state_row, groupby_sum. induction (group_keys A data) as [ | k keys IH].
  - contradiction.
  - cbn [map find sr_code]. destruct (String.eqb k s) eqn:E.
    + apply String.eqb_eq in E. subst k. reflexivity.
    + apply IH. destruct Hin as [-> | Hin]; [ | exact Hin].
      rewrite String.eqb_refl in E. discriminate.
Qed.

(** The rows of one state, when they all carry the census [p]. *)
Lemma state_columns (s : string) (p : num A) (dsJobs : list (Filing A)) :
  (forall r, In r dsJobs -> Work_State_Code r = Some s -> Census_2015 r = p) ->
  let g := filter (has_code A s) (add_Job_Per_10000 A dsJobs) in
  map (census A) g = repeat p (length g) /\
  map (job_per_10000 A) g
  = repeat (mul A (of_int A 10000) (div A (of_int A 1) p)) (length g).
Proof.
  intros Hp. cbv zeta. unfold add_Job_Per_10000.
  induction dsJobs as [ | r dsJobs IH]; [split; reflexivity | ].
  cbn [map filter].
  destruct (IH (fun r' Hin => Hp r' (or_intror Hin))) as [IH1 IH2].
  destruct (has_code A s _) eqn:E.
  - apply has_code_spec in E. cbn [state_code] in E.
    cbn [map length repeat census job_per_10000].
    rewrite IH1, IH2, (Hp r (or_introl eq_refl) E). split; reflexivity.
  - split; assumption.
Qed.

(** The group sum is the running sum: no group is below [min_count]. *)
Lemma group_sum_sumx (vals : list (num A)) :
  group_sum A vals
  = sumx A (fold_left (accumulate A) vals (mkAcc A 0 (of_int A 0) (of_int A 0))).
Proof. reflexivity. Qed.

(** The sum of a group does not see the cells that are NaN. *)
Lemma fold_accumulate_filter (vals : list (num A)) (acc : Acc A) :
  fold_left (accumulate A) (filter (fun v => negb (isnan A v)) vals) acc
  = fold_left (accumulate A) vals acc.
Proof.
  revert acc. induction vals as [ | v vals IH]; intros acc; [reflexivity | ].
  cbn [filter fold_left]. unfold accumulate at 3.
  destruct (isnan A v) eqn:E; cbn [negb].
  - apply IH.
  - cbn [fold_left]. unfold accumulate at 2. rewrite E. apply IH.
Qed.

Lemma ascii_compare_trans (a b c : Ascii.ascii) :
  Ascii.compare a b = Lt -> Ascii.compare b c = Lt -> Ascii.compare a c = Lt.
Proof.
  unfold Ascii.compare. rewrite !N.compare_lt_iff. apply N.lt_trans.
Qed.

Lemma code_lt_trans (a b c : string) : code_lt a b -> code_lt b c -> code_lt a c.
Proof.
  unfold code_lt. revert b c.
  induction a as [ | x a IH]; intros [ | y b] [ | z c]; simpl; try congruence.
  destruct (Ascii.compare x y) eqn:Exy; try discriminate.
  - apply Ascii.compare_eq_iff in Exy. subst y.
    destruct (Ascii.compare x z); try congruence. apply IH.
  - intros _. destruct (Ascii.compare y z) eqn:Eyz; try discriminate.
    + apply Ascii.compare_eq_iff in Eyz. subst z. now rewrite Exy.
    + intros _. now rewrite (ascii_compare_trans x y z Exy Eyz).
Qed.

Lemma code_lt_irrefl (a : string) : ~ code_lt a a.
Proof.
  unfold code_lt. intros H. pose proof (String.compare_antisym a a) as Ha.
  rewrite H in Ha. discriminate.
Qed.

Lemma insert_key_sorted (s : string) (keys : list string) :
  StronglySorted code_lt keys -> StronglySorted code_lt (insert_key s keys).
Proof.
  induction 1 as [ | k keys Hs IH Hk]; simpl.
  - constructor; constructor.
  - destruct (String.compare s k) eqn:E.
    + constructor; assumption.
    + constructor; [constructor; assumption | ].
      constructor; [exact E | ].
      eapply Forall_impl; [ | exact Hk]. intros x Hx.
      apply (code_lt_trans s k x E Hx).
    + constructor; [exact IH | ].
      apply Forall_forall. intros x Hx. apply insert_key_In in Hx as [-> | Hx].
      * unfold code_lt. rewrite String.compare_antisym, E. reflexivity.
      * rewrite Forall_forall in Hk. apply Hk, Hx.
Qed.

Lemma sorted_NoDup (keys : list string) : StronglySorted code_lt keys -> NoDup keys.
Proof.
  induction 1 as [ | k keys _ IH Hk]; constructor; [ | exact IH].
  intros Hin. rewrite Forall_forall in Hk. apply (code_lt_irrefl k), Hk, Hin.
Qed.

Lemma group_keys_sorted (data : list (Rated A)) :
  StronglySorted code_lt (group_keys A data).
Proof.
  induction data as [ | r data IH]; simpl; [constructor | ].
  destruct (state_code A r); [apply insert_key_sorted, IH | exact IH].
Qed.

Lemma reset_index_codes (dsJobs : list (Filing A)) :
  map sr_code (reset_index dsJobs) = group_keys A (add_Job_Per_10000 A dsJobs).
Proof.
  unfold reset_index, groupby_sum. rewrite map_map. cbn [sr_code]. apply map_id.
Qed.

Lemma filings_positive (s : string) (dsJobs : list (Filing A)) :
  (1 <= filings s dsJobs)%nat <->
  exists r, In r (add_Job_Per_10000 A dsJobs) /\ state_code A r = Some s.
Proof.
  unfold filings. split.
  - destruct (filter (has_code A s) (add_Job_Per_10000 A dsJobs)) as [ | r l] eqn:E;
      [simpl; lia | ].
    intros _. assert (Hr : In r (filter (has_code A s) (add_Job_Per_10000 A dsJobs)))
      by (rewrite E; left; reflexivity).
    apply filter_In in Hr as [Hr1 Hr2]. exists r. split; [exact Hr1 | ].
    apply has_code_spec, Hr2.
  - intros (r & Hin & Hr).
    assert (Hf : In r (filter (has_code A s) (add_Job_Per_10000 A dsJobs))).
    { apply filter_In. split; [exact Hin | apply has_code_spec, Hr]. }
    destruct (filter (has_code A s) (add_Job_Per_10000 A dsJobs));
      [contradiction | simpl; lia].
Qed.

(** Splitting a list by a test and joining the parts rearranges it. *)
Lemma Permutation_split {X : Type} (f : X -> bool) (l : list X) :
  Permutation (filter (fun x => negb (f x)) l ++ filter f l) l.
Proof.
  induction l as [ | x l IH]; [constructor | ].
  cbn [filter]. destruct (f x); cbn [negb app].
  - apply Permutation_sym, Permutation_cons_app, Permutation_sym, IH.
  - constructor. exact IH.
Qed.

(** Sorting rearranges the rows and changes none. *)
Lemma sort_values_Permutation (rows out : list (StateRow A)) :
  sort_values rows out -> Permutation rows out.
Proof.
  intros (head & -> & Hp & _). apply Permutation_sym.
  eapply Permutation_trans; [ | apply (Permutation_split missing rows)].
  apply Permutation_app_tail. exact Hp.
Qed.

(** In a table with one row per code, the row of a state is the one row
    that carries its code. *)
Lemma state_row_Some (s : string) (rows : list (StateRow A)) (r : StateRow A) :
  NoDup (map sr_code rows) ->
  (state_row s rows = Some r <-> In r rows /\ sr_code r = s).
Proof.
  unfold state_row. induction rows as [ | x rows IH]; intros Hnd.
  - simpl. split; [discriminate | intros [[] _]].
  - cbn [find map] in *. inversion Hnd as [ | ? ? Hx Hnd']; subst.
    destruct (String.eqb (sr_code x) s) eqn:E.
    + apply String.eqb_eq in E. split.
      * intros [= <-]. split; [left; reflexivity | exact E].
      * intros [[<- | Hin] Hr]; [reflexivity | ].
        exfalso. apply Hx. rewrite E, <- Hr. apply in_map, Hin.
    + rewrite (IH Hnd'). split.
      * intros [Hin Hr]. split; [right; exact Hin | exact Hr].
      * intros [[<- | Hin] Hr]; [ | split; assumption].
        rewrite Hr, String.eqb_refl in E. discriminate.
Qed.

Lemma state_row_None (s : string) (rows : list (StateRow A)) :
  state_row s rows = None <-> ~ In s (map sr_code rows).
Proof.
  unfold state_row. induction rows as [ | x rows IH]; simpl.
  - split; [intros _ [] | reflexivity].
  - destruct (String.eqb (sr_code x) s) eqn:E.
    + apply String.eqb_eq in E. split; [discriminate | ].
      intros H. exfalso. apply H. left. exact E.
    + rewrite IH. apply String.eqb_neq in E. intuition.
Qed.

(** Looking a state up does not depend on the order of the rows. *)
Lemma state_row_Permutation (s : string) (rows out : list (StateRow A)) :
  NoDup (map sr_code rows) -> Permutation rows out ->
  state_row s out = state_row s rows.
Proof.
  intros Hnd Hp.
  assert (Hnd' : NoDup (map sr_code out)).
  { eapply Permutation_NoDup; [apply Permutation_map, Hp | exact Hnd]. }
  destruct (state_row s rows) as [r | ] eqn:E.
  - apply (state_row_Some s rows r Hnd) in E as [Hin Hr].
    apply (state_row_Some s out r Hnd'). split; [ | exact Hr].
    eapply Permutation_in; [exact Hp | exact Hin].
  - apply state_row_None. apply state_row_None in E. intros Hin. apply E.
    eapply Permutation_in; [apply Permutation_sym, Permutation_map, Hp | exact Hin].
Qed.

(** The row of a state in the sorted table is its row in the grouped
    table. *)
Lemma state_data_row (s : string) (dsJobs : list (Filing A)) (out : list (StateRow A)) :
  state_data dsJobs out -> state_row s out = state_row s (reset_index dsJobs).
Proof.
  intros H. apply state_row_Permutation.
  - rewrite reset_index_codes. apply sorted_NoDup, group_keys_sorted.
  - apply sort_values_Permutation, H.
Qed.

(** With a total order on the numbers that are not NaN, the stable sort
    gives one of the tables that [sort_values] may give. *)
Lemma insert_row_Permutation (r : StateRow A) (l : list (StateRow A)) :
  Permutation (insert_row A r l) (r :: l).
Proof.
  induction l as [ | x l IH]; [constructor; constructor | ].
  cbn [insert_row]. destruct (leb A _ _); [apply Permutation_refl | ].
  eapply Permutation_trans; [constructor; exact IH | constructor].
Qed.

Lemma insert_row_Sorted (r : StateRow A) (l : list (StateRow A)) :
  total_on A present ->
  present r = true -> Forall (fun x => present x = true) l ->
  Sorted not_below l -> Sorted not_below (insert_row A r l).
Proof.
  intros Htot Hr Hall Hs. induction Hs as [ | x l Hs IH Hhd].
  - constructor; constructor.
  - cbn [insert_row]. inversion Hall as [ | ? ? Hx Hall']; subst.
    destruct (leb A (sr_Job_Per_10000 x) (sr_Job_Per_10000 r)) eqn:E.
    + constructor; [constructor; assumption | ]. constructor. exact E.
    + constructor; [apply IH, Hall' | ].
      destruct l as [ | y l]; cbn [insert_row].
      * constructor. apply (Htot x r Hx Hr E).
      * destruct (leb A (sr_Job_Per_10000 y) (sr_Job_Per_10000 r)).
        -- constructor. apply (Htot x r Hx Hr E).
        -- constructor. inversion Hhd; assumption.
Qed.

Lemma sort_values_stable_spec (rows : list (StateRow A)) :
  total_on A present -> sort_values rows (sort_values_stable rows).
Proof.
  intros Htot. unfold sort_values, sort_values_stable.
  eexists. split; [reflexivity | ].
  assert (Hall : Forall (fun x => present x = true) (filter present rows)).
  { apply Forall_forall. intros x Hx. apply filter_In in Hx as [_ Hx]. exact Hx. }
  induction (filter present rows) as [ | r l IH]; cbn [fold_right].
  - split; constructor.
  - inversion Hall as [ | ? ? Hr Hall']; subst.
    destruct (IH Hall') as [Hp Hs]. split.
    + eapply Permutation_trans; [apply insert_row_Permutation | constructor; exact Hp].
    + apply insert_row_Sorted; [exact Htot | exact Hr | | exact Hs].
      apply Forall_forall. intros x Hx. rewrite Forall_forall in Hall'.
      apply Hall'. eapply Permutation_in; [exact Hp | exact Hx].
Qed.

End Aggregation.

Section ExactSums.

Import H1B.

Lemma binary_round_aux_shifted (s : bool) (m d : positive) (e : Z) :
  bounded prec emax m (e + Zpos d) = true ->
  binary_round_aux prec emax s (Zpos (Pos.iter xO m d)) e loc_Exact
  = S754_finite s m (e + Zpos d).
Proof.
  intros Hv. unfold bounded, canonical_mantissa in Hv.
  apply andb_true_iff in Hv as [Hc Hle]. apply Z.eqb_eq in Hc.
  unfold binary_round_aux, shr_fexp. unfold Zdigits2 at 1.
  rewrite digits2_iter_xO.
  replace (Zpos (digits2_pos m) + Zpos d + e)
    with (Zpos (digits2_pos m) + (e + Zpos d)) by lia.
  rewrite Hc. replace (e + Zpos d - e) with (Zpos d) by lia.
  unfold shr at 1. cbv [shr_record_of_loc]. rewrite shr_iter_xO.
  cbv [shr_m loc_of_shr_record round_nearest_even Zdigits2].
  rewrite Hc, Z.sub_diag.
  cbv [shr shr_m]. rewrite Hle. reflexivity.
Qed.

(** Rounding a mantissa that is a canonical one shifted left gives the
    canonical one back. *)
Lemma binary_round_exact (s : bool) (M mc : positive) (ez n : Z) :
  0 <= n ->
  Zpos M = Zpos mc * 2 ^ n ->
  bounded prec emax mc (ez + n) = true ->
  binary_round prec emax s M ez = S754_finite s mc (ez + n).
Proof.
  intros Hn HM Hb. pose proof Hb as Hb'.
  unfold bounded, canonical_mantissa in Hb'.
  apply andb_true_iff in Hb' as [Hc _]. apply Z.eqb_eq in Hc.
  unfold binary_round, shl_align.
  destruct n as [ | d | d]; [ | | lia].
  - rewrite Z.pow_0_r, Z.mul_1_r in HM. injection HM as ->.
    rewrite Z.add_0_r in *. rewrite Hc, Z.sub_diag.
    apply binary_round_aux_canonical, Hb.
  - rewrite <- Zpos_iter_xO in HM. injection HM as ->.
    rewrite digits2_iter_xO.
    replace (Zpos (digits2_pos mc) + Zpos d + ez)
      with (Zpos (digits2_pos mc) + (ez + Zpos d)) by lia.
    rewrite Hc. replace (ez + Zpos d - ez) with (Zpos d) by lia.
    apply binary_round_aux_shifted, Hb.
Qed.

(** The float of a positive integer below 2^53, with its exponent. *)
Lemma binary_round_int (s : bool) (m : positive) :
  Zpos m < 2 ^ 53 ->
  exists m',
    binary_round prec emax s m 0
    = S754_finite s m' (Zpos (digits2_pos m) - 53) /\
    bounded prec emax m' (Zpos (digits2_pos m) - 53) = true /\
    Zpos m' = Zpos m * 2 ^ (53 - Zpos (digits2_pos m)).
Proof.
  intros Hm. pose proof (digits2_pos_small m Hm) as Hd.
  assert (Hf : fexp prec emax (Zpos (digits2_pos m) + 0)
               = Zpos (digits2_pos m) - 53).
  { unfold fexp, emin, prec, emax. lia. }
  destruct (Z.eq_dec (Zpos (digits2_pos m)) 53) as [E | E].
  - exists m. assert (Hb : bounded prec emax m (Zpos (digits2_pos m) - 53) = true).
    { unfold bounded, canonical_mantissa. rewrite E. change (53 - 53) with 0.
      rewrite <- E, Hf, E. reflexivity. }
    split; [ | split; [exact Hb | rewrite E; simpl; lia]].
    rewrite <- (Z.add_0_l (Zpos (digits2_pos m) - 53)).
    apply binary_round_exact; [lia | | rewrite Z.add_0_l; exact Hb].
    rewrite E. simpl. lia.
  - destruct (53 - Zpos (digits2_pos m)) as [ | d | d] eqn:Ed; try lia.
    exists (Pos.iter xO m d).
    assert (Hb : bounded prec emax (Pos.iter xO m d) (Zpos (digits2_pos m) - 53) = true).
    { unfold bounded, canonical_mantissa. rewrite digits2_iter_xO.
      apply andb_true_iff. split.
      - apply Z.eqb_eq. unfold fexp, emin, prec, emax. lia.
      - apply Z.leb_le. unfold prec, emax. lia. }
    split; [ | split; [exact Hb | apply Zpos_iter_xO]].
    unfold binary_round, shl_align. rewrite Hf.
    replace (Zpos (digits2_pos m) - 53 - 0) with (Zneg d) by lia.
    apply binary_round_aux_canonical, Hb.
Qed.

Lemma digits2_pos_mono (a c : positive) :
  Zpos a <= Zpos c -> Zpos (digits2_pos a) <= Zpos (digits2_pos c).
Proof.
  intros Hle. pose proof (digits2_pos_bound a) as [Ha _].
  pose proof (digits2_pos_bound c) as [_ Hc].
  destruct (Z_le_gt_dec (Zpos (digits2_pos a)) (Zpos (digits2_pos c))) as [H | H];
    [exact H | exfalso].
  assert (2 ^ Zpos (digits2_pos c) <= 2 ^ (Zpos (digits2_pos a) - 1))
    by (apply Z.pow_le_mono_r; lia).
  lia.
Qed.

Lemma shl_align_value (m : positive) (e ez : Z) :
  ez <= e ->
  Zpos (fst (shl_align m e ez)) = Zpos m * 2 ^ (e - ez).
Proof.
  intros Hle. unfold shl_align.
  destruct (ez - e) as [ | d | d] eqn:Ed; try lia; cbn [fst].
  - replace (e - ez) with 0 by lia. simpl. lia.
  - rewrite Zpos_iter_xO. f_equal. f_equal. lia.
Qed.

Lemma fadd_pos (a b : positive) :
  Zpos a + Zpos b < 2 ^ 53 ->
  fadd (float_of_int (Zpos a)) (float_of_int (Zpos b)) = float_of_int (Zpos a + Zpos b).
Proof.
  intros Hab.
  destruct (binary_round_int false a) as (ma & Ha & Hba & Hma); [lia | ].
  destruct (binary_round_int false b) as (mb & Hb & Hbb & Hmb); [lia | ].
  destruct (binary_round_int false (a + b)) as (mc & Hc & Hbc & Hmc); [lia | ].
  pose proof (digits2_pos_mono a (a + b) ltac:(lia)) as Hda.
  pose proof (digits2_pos_mono b (a + b) ltac:(lia)) as Hdb.
  pose proof (digits2_pos_small (a + b) ltac:(lia)) as Hdc.
  unfold float_of_int, binary_normalize. cbn [Z.add].
  rewrite Ha, Hb, Hc. unfold fadd, SFadd, binary_normalize. cbn [cond_Zopp].
  set (da := Zpos (digits2_pos a)) in *. set (db := Zpos (digits2_pos b)) in *.
  set (dc := Zpos (digits2_pos (a + b))) in *.
  set (ez := Z.min (da - 53) (db - 53)).
  pose proof (shl_align_value ma (da - 53) ez ltac:(unfold ez; lia)) as Va.
  pose proof (shl_align_value mb (db - 53) ez ltac:(unfold ez; lia)) as Vb.
  set (Ma := fst (shl_align ma (da - 53) ez)) in *.
  set (Mb := fst (shl_align mb (db - 53) ez)) in *.
  change (binary_round prec emax false (Ma + Mb) ez = S754_finite false mc (dc - 53)).
  replace (dc - 53) with (ez + (dc - 53 - ez)) by lia.
  apply binary_round_exact;
    [unfold ez; lia | | replace (ez + (dc - 53 - ez)) with (dc - 53) by lia; exact Hbc].
  rewrite Pos2Z.inj_add, Va, Vb, Hma, Hmb, Hmc, Pos2Z.inj_add.
  rewrite <- !Z.mul_assoc, <- !Z.pow_add_r by (unfold ez; lia).
  replace (53 - da + (da - 53 - ez)) with (- ez) by lia.
  replace (53 - db + (db - 53 - ez)) with (- ez) by lia.
  replace (53 - dc + (dc - 53 - ez)) with (- ez) by lia.
  ring.
Qed.


(** Binary64 adds non-negative integers without error as long as the sum
    stays below 2^53. *)
Lemma fadd_int (a b : Z) :
  0 <= a -> 0 <= b -> a + b < 2 ^ 53 ->
  fadd (float_of_int a) (float_of_int b) = float_of_int (a + b).
Proof.
  intros Ha Hb Hab. destruct a as [ | a | a]; [ | | lia].
  - destruct b as [ | b | b]; [reflexivity | | lia].
    destruct (binary_round_int false b) as (mb & Hmb & _); [lia | ].
    cbn [Z.add]. unfold float_of_int, binary_normalize. rewrite Hmb. reflexivity.
  - destruct b as [ | b | b]; [ | apply fadd_pos; exact Hab | lia].
    destruct (binary_round_int false a) as (ma & Hma & _); [lia | ].
    rewrite Z.add_0_r. unfold float_of_int, binary_normalize. rewrite Hma. reflexivity.
Qed.

(** Rounding a mantissa that has to be shifted left to become canonical
    gives the canonical one. *)
Lemma binary_round_grow (s : bool) (M mc : positive) (ez n : Z) :
  0 <= n ->
  Zpos mc = Zpos M * 2 ^ n ->
  bounded prec emax mc (ez - n) = true ->
  binary_round prec emax s M ez = S754_finite s mc (ez - n).
Proof.
  intros Hn HM Hb. pose proof Hb as Hb'.
  unfold bounded, canonical_mantissa in Hb'.
  apply andb_true_iff in Hb' as [Hc _]. apply Z.eqb_eq in Hc.
  destruct n as [ | d | d]; [ | | lia].
  - rewrite Z.pow_0_r, Z.mul_1_r in HM. injection HM as ->.
    rewrite Z.sub_0_r in *. unfold binary_round, shl_align.
    rewrite Hc, Z.sub_diag. apply binary_round_aux_canonical, Hb.
  - rewrite <- Zpos_iter_xO in HM. injection HM as ->.
    rewrite digits2_iter_xO in Hc.
    unfold binary_round, shl_align.
    replace (Zpos (digits2_pos M) + ez)
      with (Zpos (digits2_pos M) + Zpos d + (ez - Zpos d)) by lia.
    rewrite Hc. replace (ez - Zpos d - ez) with (Zneg d) by lia.
    apply binary_round_aux_canonical, Hb.
Qed.

Lemma fsub_pos (a b : positive) :
  Zpos b < Zpos a -> Zpos a < 2 ^ 53 ->
  fsub (float_of_int (Zpos a)) (float_of_int (Zpos b)) = float_of_int (Zpos a - Zpos b).
Proof.
  intros Hba Ha53.
  destruct (Zpos a - Zpos b) as [ | c | c] eqn:Ec; try lia.
  destruct (binary_round_int false a) as (ma & Ha & Hba' & Hma); [lia | ].
  destruct (binary_round_int false b) as (mb & Hb & Hbb & Hmb); [lia | ].
  destruct (binary_round_int false c) as (mc & Hc & Hbc & Hmc); [lia | ].
  pose proof (digits2_pos_mono b a ltac:(lia)) as Hdb.
  pose proof (digits2_pos_mono c a ltac:(lia)) as Hdc.
  pose proof (digits2_pos_small a ltac:(lia)) as Hda.
  unfold float_of_int, binary_normalize.
  rewrite Ha, Hb, Hc. unfold fsub, SFsub. cbn [cond_Zopp].
  set (da := Zpos (digits2_pos a)) in *. set (db := Zpos (digits2_pos b)) in *.
  set (dc := Zpos (digits2_pos c)) in *.
  set (ez := Z.min (da - 53) (db - 53)).
  assert (Hez : ez = db - 53) by (unfold ez; lia).
  pose proof (shl_align_value ma (da - 53) ez ltac:(lia)) as Va.
  pose proof (shl_align_value mb (db - 53) ez ltac:(lia)) as Vb.
  set (Ma := fst (shl_align ma (da - 53) ez)) in *.
  set (Mb := fst (shl_align mb (db - 53) ez)) in *.
  assert (HD : Zpos Ma - Zpos Mb = Zpos c * 2 ^ (53 - db)).
  { rewrite Va, Vb, Hma, Hmb, <- Ec, Hez.
    rewrite <- !Z.mul_assoc, <- !Z.pow_add_r by lia.
    replace (53 - da + (da - 53 - (db - 53))) with (53 - db) by lia.
    replace (53 - db + (db - 53 - (db - 53))) with (53 - db) by lia.
    ring. }
  assert (Hpow : 0 < 2 ^ (53 - db)) by (apply Z.pow_pos_nonneg; lia).
  unfold binary_normalize.
  destruct (Zpos Ma - Zpos Mb) as [ | C | C] eqn:ED; try nia.
  destruct (Z_le_gt_dec db dc) as [Hle | Hgt].
  - replace (dc - 53) with (ez + (dc - db)) by lia.
    apply binary_round_exact; [lia | | replace (ez + (dc - db)) with (dc - 53) by lia; exact Hbc].
    rewrite HD, Hmc, <- Z.mul_assoc, <- Z.pow_add_r by lia.
    do 2 f_equal. lia.
  - replace (dc - 53) with (ez - (db - dc)) by lia.
    apply binary_round_grow; [lia | | replace (ez - (db - dc)) with (dc - 53) by lia; exact Hbc].
    rewrite HD, Hmc, <- Z.mul_assoc, <- Z.pow_add_r by lia.
    do 2 f_equal. lia.
Qed.

(** Binary64 subtracts non-negative integers below 2^53 without error. *)
Lemma fsub_int (a b : Z) :
  0 <= b -> b <= a -> a < 2 ^ 53 ->
  fsub (float_of_int a) (float_of_int b) = float_of_int (a - b).
Proof.
  intros Hb Hba Ha. destruct b as [ | b | b]; [ | | lia].
  - rewrite Z.sub_0_r. destruct a as [ | a | a]; [reflexivity | | lia].
    destruct (binary_round_int false a) as (ma & Hma & _); [lia | ].
    unfold float_of_int, binary_normalize. rewrite Hma. reflexivity.
  - destruct a as [ | a | a]; [lia | | lia].
    destruct (Z.eq_dec (Zpos a) (Zpos b)) as [E | E].
    + injection E as ->. rewrite Z.sub_diag.
      destruct (binary_round_int false b) as (mb & Hmb & _); [lia | ].
      unfold float_of_int at 1 2, binary_normalize. rewrite Hmb.
      unfold fsub, SFsub. cbn [cond_Zopp]. rewrite Z.sub_diag. reflexivity.
    + apply fsub_pos; lia.
Qed.

(** The float of an integer below 2^53 is not NaN. *)
Lemma float_of_int_number (p : Z) :
  0 <= p < 2 ^ 53 -> is_nan (float_of_int p) = false.
Proof.
  intros Hp. destruct p as [ | p | p]; [reflexivity | | lia].
  destruct (binary_round_int false p) as (m & Hm & _); [lia | ].
  unfold float_of_int, binary_normalize. rewrite Hm. reflexivity.
Qed.

(** Compensated summation of [n] copies of an integer, as long as the
    sum stays below 2^53: the running sum is exact and the compensation
    stays zero. *)
Lemma accumulate_int (n : nat) (p k : Z) (m : nat) :
  0 <= p -> 0 <= k -> (k + Z.of_nat n) * p < 2 ^ 53 ->
  fold_left (accumulate Float64) (repeat (float_of_int p) n)
            (mkAcc Float64 m (float_of_int (k * p)) (float_of_int 0))
  = mkAcc Float64 (m + n) (float_of_int ((k + Z.of_nat n) * p)) (float_of_int 0).
Proof.
  intros Hp. revert k m. induction n as [ | n IH]; intros k m Hk Hb.
  - cbn [repeat fold_left]. rewrite Nat.add_0_r, Z.add_0_r. reflexivity.
  - cbn [repeat fold_left]. rewrite Nat2Z.inj_succ in Hb.
    assert (Hstep : accumulate Float64
                      (mkAcc Float64 m (float_of_int (k * p)) (float_of_int 0))
                      (float_of_int p)
                    = mkAcc Float64 (S m) (float_of_int ((k + 1) * p)) (float_of_int 0)).
    { unfold accumulate. cbn [isnan Float64 sub add of_int nobs sumx compensation].
      rewrite float_of_int_number by nia.
      rewrite (fsub_int p 0) by nia. rewrite Z.sub_0_r.
      rewrite fadd_int by nia.
      replace (k * p + p) with ((k + 1) * p) by ring.
      rewrite (fsub_int ((k + 1) * p) (k * p)) by nia.
      replace ((k + 1) * p - k * p) with p by ring.
      rewrite (fsub_int p p) by nia. rewrite Z.sub_diag. reflexivity. }
    rewrite Hstep, IH by nia.
    f_equal; [lia | f_equal; lia].
Qed.

Lemma group_sum_int (n : nat) (p : Z) :
  0 <= p -> Z.of_nat n * p < 2 ^ 53 ->
  group_sum Float64 (repeat (float_of_int p) n) = float_of_int (Z.of_nat n * p).
Proof.
  intros Hp Hb. rewrite group_sum_sumx.
  change (of_int Float64 0) with (float_of_int (0 * p)) at 1.
  change (of_int Float64 0) with (float_of_int 0).
  rewrite accumulate_int by (try lia; exact Hb). reflexivity.
Qed.

(** Compensated summation of infinities: the compensation turns NaN and
    is reset, the sum stays infinite. *)
Lemma accumulate_inf (n m : nat) :
  fold_left (accumulate Float64) (repeat (S754_infinity false) n)
            (mkAcc Float64 m (S754_infinity false) (S754_zero false))
  = mkAcc Float64 (m + n) (S754_infinity false) (S754_zero false).
Proof.
  revert m. induction n as [ | n IH]; intros m.
  - cbn [repeat fold_left]. now rewrite Nat.add_0_r.
  - cbn [repeat fold_left].
    change (accumulate Float64 (mkAcc Float64 m (S754_infinity false) (S754_zero false))
              (S754_infinity false))
      with (mkAcc Float64 (S m) (S754_infinity false) (S754_zero false)).
    rewrite IH. f_equal. lia.
Qed.

Lemma group_sum_inf (n : nat) :
  (1 <= n)%nat -> group_sum Float64 (repeat (S754_infinity false) n) = S754_infinity false.
Proof.
  intros Hn. destruct n as [ | n]; [lia | ]. rewrite group_sum_sumx.
  cbn [repeat fold_left].
  change (accumulate Float64 (mkAcc Float64 0 (of_int Float64 0) (of_int Float64 0))
            (S754_infinity false))
    with (mkAcc Float64 1 (S754_infinity false) (S754_zero false)).
  rewrite accumulate_inf. reflexivity.
Qed.

Lemma group_sum_zero (n : nat) :
  group_sum Float64 (repeat (S754_zero false) n) = S754_zero false.
Proof.
  change (S754_zero false) with (float_of_int 0) at 1.
  rewrite group_sum_int by lia. rewrite Z.mul_0_r. reflexivity.
Qed.

(** On the floats that are not NaN, [<=] is total. *)
Lemma fleb_total (x y : float64) :
  is_nan x = false -> is_nan y = false -> fleb x y = false -> fleb y x = true.
Proof.
  unfold fleb, SFleb, SFcompare.
  destruct x as [sx | sx | | sx mx ex], y as [sy | sy | | sy my ey];
    try discriminate; intros _ _;
    try (destruct sx; try destruct sy; simpl; congruence).
  destruct sx, sy; try (simpl; congruence).
  - rewrite (Z.compare_antisym ex ey).
    destruct (ex ?= ey) eqn:E; simpl; try congruence.
    rewrite !Pos.compare_cont_spec, (Pos.compare_antisym mx my).
    destruct (mx ?= my)%positive; simpl; congruence.
  - rewrite (Z.compare_antisym ex ey).
    destruct (ex ?= ey) eqn:E; simpl; try congruence.
    rewrite !Pos.compare_cont_spec, (Pos.compare_antisym mx my).
    destruct (mx ?= my)%positive; simpl; congruence.
Qed.

Lemma float_rows_total : total_on Float64 present.
Proof.
  intros a b Ha Hb. unfold present, missing in Ha, Hb.
  apply negb_true_iff in Ha, Hb. apply (fleb_total _ _ Ha Hb).
Qed.




End ExactSums.

Section StateSums.

Import H1B.




End StateSums.

(* ================================================================== *)
(** * Further properties of the state aggregation                      *)
(* ================================================================== *)

Section StateRows.

Import H1B.

(** X13: [state_data] has exactly one row for every state code that
    occurs in the data set, and no other row.  The group-by yields the
    rows in the strict lexicographic order of the codes; the sort that
    follows rearranges them: in every table it may leave, the rows that
    have a [Job_Per_10000] come first, each not below the next, and the
    rows whose [Job_Per_10000] is NaN come last, in the order of their
    codes.  The sort always leaves a table. *)
Theorem state_data_has_one_row_per_state (dsJobs : list (Filing Float64)) :
  StronglySorted code_lt (map sr_code (reset_index dsJobs)) /\
  (exists out, state_data dsJobs out) /\
  (forall out,
     state_data dsJobs out ->
     Permutation (reset_index dsJobs) out /\
     NoDup (map sr_code out) /\
     (forall s, In s (map sr_code out) <-> (1 <= filings s dsJobs)%nat) /\
     exists head,
       out = head ++ filter missing (reset_index dsJobs) /\
       Forall (fun r => missing r = false) head /\
       Sorted not_below head).
Proof.
  pose proof (group_keys_sorted Float64 (add_Job_Per_10000 Float64 dsJobs)) as Hs.
  rewrite <- reset_index_codes in Hs.
  split; [exact Hs | ]. split.
  - exists (sort_values_stable (reset_index dsJobs)).
    apply sort_values_stable_spec, float_rows_total.
  - intros out Hout.
    pose proof (sort_values_Permutation Float64 _ _ Hout) as Hp.
    pose proof (Permutation_map sr_code Hp) as Hpc.
    split; [exact Hp | ]. split; [ | split].
    + eapply Permutation_NoDup; [exact Hpc | apply sorted_NoDup, Hs].
    + intros s. rewrite (filings_positive Float64), <- group_keys_In,
        <- reset_index_codes. split; intros H.
      * eapply Permutation_in; [apply Permutation_sym, Hpc | exact H].
      * eapply Permutation_in; [exact Hpc | exact H].
    + destruct Hout as (head & -> & Hh & Hsorted). exists head.
      split; [reflexivity | ]. split; [ | exact Hsorted].
      apply Forall_forall. intros r Hr.
      apply (Permutation_in _ Hh) in Hr. apply filter_In in Hr as [_ Hr].
      unfold present in Hr. apply negb_true_iff, Hr.
Qed.

Variable A : Arith.

Lemma find_no_key (s : string) (mk : string -> StateRow A) (keys : list string) :
  (forall k, sr_code (mk k) = k) ->
  ~ In s keys ->
  find (fun r => String.eqb (sr_code r) s) (map mk keys) = None.
Proof.
  intros Hmk. induction keys as [ | k keys IH]; intros Hin; [reflexivity | ].
  cbn [map find]. rewrite Hmk. destruct (String.eqb k s) eqn:E.
  - apply String.eqb_eq in E. subst k. exfalso. apply Hin. left. reflexivity.
  - apply IH. intros H. apply Hin. right. exact H.
Qed.

Lemma filter_map_swap {X Y : Type} (f : Y -> bool) (g : X -> Y) (l : list X) :
  filter f (map g l) = map g (filter (fun x => f (g x)) l).
Proof.
  induction l as [ | x l IH]; [reflexivity | ].
  cbn [map filter]. destruct (f (g x)); cbn [map]; now rewrite IH.
Qed.

Lemma state_filings (s : string) (dsJobs : list (Filing A)) :
  let g := filter (has_code A s) (add_Job_Per_10000 A dsJobs) in
  map (census A) g = map Census_2015 (filings_of s dsJobs) /\
  map (job_per_10000 A) g
  = map (fun r => rate (Census_2015 r)) (filings_of s dsJobs) /\
  length g = length (filings_of s dsJobs).
Proof.
  cbv zeta. unfold add_Job_Per_10000. rewrite filter_map_swap.
  change (filter _ dsJobs) with (filings_of s dsJobs).
  rewrite !map_map, length_map. repeat split.
Qed.

(** X14: looking a state up in [state_data], in any table the sort may
    leave.  A state without filings has no row.  A state with filings has
    the row that carries its code and the group sums of the census and of
    the per-row value [10000 * (1 / census)] over the filings of that
    state alone, in their order in the data set; filings of other states
    and filings without a state code do not enter.  The group sum is the
    compensated sum of the group-by kernel, which skips NaN and is zero
    when every cell of the group is NaN. *)
Theorem state_row_lookup
  (dsJobs : list (Filing A)) (s : string) (out : list (StateRow A)) :
  state_data dsJobs out ->
  filings s dsJobs = length (filings_of s dsJobs) /\
  (filings_of s dsJobs = [] -> state_row s out = None) /\
  (filings_of s dsJobs <> [] ->
   state_row s out
   = Some (mkStateRow A s
             (group_sum A (map Census_2015 (filings_of s dsJobs)))
             (group_sum A (map (fun r => rate (Census_2015 r))
                               (filings_of s dsJobs))))).
Proof.
  intros Hout. rewrite (state_data_row A s dsJobs out Hout).
  destruct (state_filings s dsJobs) as (Hc & Hj & Hlen).
  split; [exact Hlen | split].
  - intros E. unfold state_row, reset_index, groupby_sum.
    apply find_no_key; [reflexivity | ].
    intros Hin. apply group_keys_In in Hin.
    apply (proj2 (filings_positive A s dsJobs)) in Hin.
    unfold filings in Hin. rewrite Hlen, E in Hin. simpl in Hin. lia.
  - intros Hne. unfold reset_index. rewrite state_row_found.
    + rewrite Hc, Hj. reflexivity.
    + intros E. rewrite E in Hlen. simpl in Hlen.
      destruct (filings_of s dsJobs); [contradiction | discriminate].
Qed.

(** X15: the group sum skips NaN.  Cells that are NaN (a missing census)
    add nothing to the sum of their group: the sum is the one of the
    remaining cells, in their order. *)
Theorem group_sum_skips_nan (vals : list (num A)) :
  group_sum A vals = group_sum A (filter (fun v => negb (isnan A v)) vals).
Proof. unfold group_sum. now rewrite fold_accumulate_filter. Qed.

(** X18: a group without a number sums to zero.  When every cell of a
    group is NaN (the census of the state is missing in every filing),
    the group sum is 0, not NaN: [sum()] asks for no minimal count. *)
Theorem missing_census_sums_to_zero (vals : list (num A)) :
  forallb (isnan A) vals = true -> group_sum A vals = of_int A 0.
Proof.
  intros H. rewrite group_sum_sumx, <- fold_accumulate_filter.
  replace (filter (fun v => negb (isnan A v)) vals) with (@nil (num A)); [reflexivity | ].
  induction vals as [ | v vals IH]; [reflexivity | ].
  simpl in H. apply andb_true_iff in H as [Hv H].
  cbn [filter]. rewrite Hv. cbn [negb]. apply IH, H.
Qed.

End StateRows.

Section FloatRows.

Import H1B.

Lemma three_filings_census (r : Filing Float64) :
  In r three_filings -> Work_State_Code r = Some "FL"%string ->
  Census_2015 r = florida.
Proof. intros [<- | [<- | [<- | []]]] _; reflexivity. Qed.

Lemma three_filings_table :
  state_data three_filings (sort_values_stable (reset_index three_filings)).
Proof. apply sort_values_stable_spec, float_rows_total. Qed.

(** X14 on the three filings in Florida: Florida has a row, Texas has
    none. *)
Lemma state_row_lookup_witness :
  state_row "FL" (sort_values_stable (reset_index three_filings))
  = Some (mkStateRow Float64 "FL"
            (group_sum Float64 (map Census_2015 (filings_of "FL" three_filings)))
            (group_sum Float64 (map (fun r => rate (Census_2015 r))
                                    (filings_of "FL" three_filings)))) /\
  state_row "TX" (sort_values_stable (reset_index three_filings)) = None.
Proof.
  split.
  - apply (state_row_lookup Float64 three_filings "FL"%string _ three_filings_table).
    intros E. apply (f_equal (@length _)) in E. vm_compute in E. discriminate.
  - apply (state_row_lookup Float64 three_filings "TX"%string _ three_filings_table).
    reflexivity.
Defined.

(** X18 on a group of two missing cells, in binary64. *)
Lemma missing_census_sums_to_zero_witness :
  group_sum Float64 [nan; nan] = S754_zero false.
Proof. apply (missing_census_sums_to_zero Float64 [nan; nan]). reflexivity. Defined.

(** X16: the aggregated census of a state is exact.  When every filing of
    the state carries the integer census [p >= 0] and [n * p] stays below
    2^53 for the [n >= 1] filings of the state, the query leaves a table,
    and in every table it may leave the aggregated [Census_2015] is the
    float of [n * p] without any rounding: the population counted once
    per filing, not the population. *)
Theorem census_sum_is_exact
  (dsJobs : list (Filing Float64)) (s : string) (p : Z) :
  0 <= p ->
  (forall r, In r dsJobs -> Work_State_Code r = Some s ->
             Census_2015 r = float_of_int p) ->
  (1 <= filings s dsJobs)%nat ->
  Z.of_nat (filings s dsJobs) * p < 2 ^ 53 ->
  (exists out, state_data dsJobs out) /\
  (forall out,
     state_data dsJobs out ->
     Census_2015_of s out
     = Some (float_of_int (Z.of_nat (filings s dsJobs) * p))).
Proof.
  intros Hp Hall Hn Hbound. split.
  - exists (sort_values_stable (reset_index dsJobs)).
    apply sort_values_stable_spec, float_rows_total.
  - intros out Hout. unfold Census_2015_of.
    rewrite (state_data_row Float64 s dsJobs out Hout).
    unfold reset_index, filings in *.
    rewrite state_row_found by (intros E; rewrite E in Hn; simpl in Hn; lia).
    cbn [option_map sr_Census_2015]. f_equal.
    destruct (state_columns Float64 s (float_of_int p) dsJobs Hall) as [Hc _].
    rewrite Hc. apply group_sum_int; assumption.
Qed.

(** X16 on the three filings in Florida. *)
Lemma census_sum_is_exact_witness :
  Census_2015_of "FL" (sort_values_stable (reset_index three_filings))
  = Some (float_of_int (Z.of_nat (filings "FL" three_filings) * 20271272)).
Proof.
  apply (proj2 (census_sum_is_exact three_filings "FL"%string 20271272
                  ltac:(lia) three_filings_census
                  ltac:(vm_compute; lia) ltac:(vm_compute; reflexivity))).
  exact three_filings_table.
Defined.

(** X17: a census of zero is no error.  For a state all of whose [n >= 1]
    filings carry the census 0.0, the division [1 / 0.0] gives infinity
    and nothing raises: the query leaves a table, and in every table it
    may leave the state's row holds 0.0 as [Census_2015] and positive
    infinity as [Job_Per_10000]. *)
Theorem zero_census_gives_infinity (dsJobs : list (Filing Float64)) (s : string) :
  (forall r, In r dsJobs -> Work_State_Code r = Some s ->
             Census_2015 r = S754_zero false) ->
  (1 <= filings s dsJobs)%nat ->
  (exists out, state_data dsJobs out) /\
  (forall out,
     state_data dsJobs out ->
     Census_2015_of s out = Some (S754_zero false) /\
     Job_Per_10000_of s out = Some (S754_infinity false)).
Proof.
  intros Hall Hn. split.
  - exists (sort_values_stable (reset_index dsJobs)).
    apply sort_values_stable_spec, float_rows_total.
  - intros out Hout. unfold Census_2015_of, Job_Per_10000_of.
    rewrite (state_data_row Float64 s dsJobs out Hout).
    unfold reset_index, filings in *.
    rewrite state_row_found by (intros E; rewrite E in Hn; simpl in Hn; lia).
    cbn [option_map sr_Census_2015 sr_Job_Per_10000].
    destruct (state_columns Float64 s (S754_zero false) dsJobs Hall) as [Hc Hj].
    rewrite Hc, Hj, group_sum_zero. split; [reflexivity | ]. f_equal.
    change (mul Float64 (of_int Float64 10000)
              (div Float64 (of_int Float64 1) (S754_zero false)))
      with (S754_infinity false).
    apply group_sum_inf, Hn.
Qed.

Lemma unpopulated_census (r : Filing Float64) :
  In r unpopulated -> Work_State_Code r = Some "XX"%string ->
  Census_2015 r = S754_zero false.
Proof. intros [<- | [<- | []]]; [reflexivity | discriminate]. Qed.

(** X17 on one filing with census 0.0 and one filing without a state. *)
Lemma zero_census_gives_infinity_witness :
  Census_2015_of "XX" (sort_values_stable (reset_index unpopulated))
  = Some (S754_zero false) /\
  Job_Per_10000_of "XX" (sort_values_stable (reset_index unpopulated))
  = Some (S754_infinity false).
Proof.
  apply (proj2 (zero_census_gives_infinity unpopulated "XX"%string
                  unpopulated_census ltac:(vm_compute; lia))).
  apply sort_values_stable_spec, float_rows_total.
Defined.

End FloatRows.
